(** * The TOON playground: synchronisation engine, cost calculator, share codec

    A shallow embedding of the [<script setup>] block of the playground
    component (src/unnamed/part_000, lines 1-367).

    - Reactive [ref]s are the fields of [State]; a [computed] is a pure function
      of the state; a method is a computation in the state-and-exception monad
      [M]; a [watch] callback is a job of the scheduler ([flushJobs]).
    - Everything the component imports (the JSON built-in, the TOON encoder,
      fflate, uint8array-extras) and the three lazily loaded libraries
      (gpt-tokenizer, yaml, papaparse) is code outside this repository.  It is
      taken as data: records of functions, [Imports] for what is always there
      and [GptTokenizer.t], [Yaml.t], [Papa.t] for what a [shallowRef] holds
      once loaded.  A library call that may throw returns a [Completion].
      Libraries are functions of their arguments, as section 1 of the
      specification assumes of them (pure, deterministic).
    - Not modelled: the template's layout, the clipboard and the timer of the
      debounced [updateUrl]. *)

From Stdlib Require Import ZArith NArith List String Ascii Bool Lia SpecFloat DecimalString.
From Stdlib Require Decimal DecimalPos.
Import ListNotations.
Set Warnings "-register-all".
Open Scope string_scope.
Open Scope Z_scope.

(** ** JavaScript numbers, values and completions *)

(** A JS number is an IEEE 754 binary64 value. *)
Definition Number := spec_float.
Definition prec : Z := 53.
Definition emax : Z := 1024.

(** The number an integer literal or an array length denotes (exact below 2^53,
    rounded to nearest even above). *)
Definition Number_of_Z (z : Z) : Number := binary_normalize prec emax z 0 false.
Definition Number_div : Number -> Number -> Number := SFdiv prec emax.
Definition Number_mul : Number -> Number -> Number := SFmul prec emax.
Definition Math_abs : Number -> Number := SFabs.

(** What [JSON.parse], [yaml.parse] and [Papa.parse] produce: the Document. *)
Inductive JsValue : Type :=
| JNull
| JBool (b : bool)
| JNum (x : Number)
| JStr (s : string)
| JArr (items : list JsValue)
| JObj (fields : list (string * JsValue)).

Definition isArray (v : JsValue) : bool :=
  match v with JArr _ => true | _ => false end.

(** [if (s)] for a string. *)
Definition truthy_string (s : string) : bool := negb (s =? "")%string.

(** [if (v)] for a value. *)
Definition truthy (v : JsValue) : bool :=
  match v with
  | JNull => false
  | JBool b => b
  | JNum (S754_zero _) | JNum S754_nan => false
  | JNum _ => true
  | JStr s => truthy_string s
  | JArr _ | JObj _ => true
  end.

(** What [yaml.parse] hands over.  A [JsValue] is a tree; yaml resolves an
    alias to the very object its anchor names, so the text [&a [*a]] parses
    to an array that contains itself: an object graph with a cycle, which no
    [JsValue] is and which [JSON.stringify] refuses. *)
Inductive Parsed : Type :=
| Tree (v : JsValue)
| Cyclic.

(** What a [catch] clause receives. *)
Inductive Thrown : Type :=
| ErrorObject (message : string)   (* e instanceof Error *)
| OtherThrown.

(** How a call ends: with a value, or by throwing. *)
Inductive Completion (A : Type) : Type :=
| Normal (a : A)
| Throw (e : Thrown).
Arguments Normal {A} a.
Arguments Throw {A} e.

Definition bindC {A B} (c : Completion A) (k : A -> Completion B) : Completion B :=
  match c with Normal a => k a | Throw e => Throw e end.

(** [try { body } catch { handler }]. *)
Definition try_catchC {A} (body : Completion A) (handler : Thrown -> Completion A)
  : Completion A :=
  match body with Normal a => Normal a | Throw e => handler e end.

Declare Scope completion_scope.
Delimit Scope completion_scope with C.
Notation "x <- c ;; k" := (bindC c (fun x => k))
  (at level 61, c at next level, right associativity) : completion_scope.

(** ** The imported libraries *)

Definition Uint8Array := list Byte.byte.

(** [Delimiter] of packages/toon: the three characters of [DELIMITER_OPTIONS]. *)
Inductive Delimiter : Type := Comma | Tab | Pipe.

Definition delimiter_char (d : Delimiter) : string :=
  match d with
  | Comma => ","
  | Tab => String (ascii_of_nat 9) EmptyString
  | Pipe => "|"
  end.

Module Toon.
Record EncodeOptions : Type := { indent : Z; delimiter : Delimiter }.
End Toon.

(** Always available: globals and static imports. *)
Record Imports : Type := {
  (* JSON.parse(text) *)
  JSON_parse : string -> Completion JsValue;
  (* JSON.stringify(value, undefined, space); [None] when [space] is left out *)
  JSON_stringify : JsValue -> option Z -> string;
  (* encode(value, options) of packages/toon *)
  encode : JsValue -> Toon.EncodeOptions -> Completion string;
  (* fflate *)
  zlibSync : Uint8Array -> Uint8Array;
  unzlibSync : Uint8Array -> Completion Uint8Array;
  (* uint8array-extras; the flag of uint8ArrayToBase64 is [urlSafe] *)
  stringToUint8Array : string -> Uint8Array;
  uint8ArrayToString : Uint8Array -> Completion string;
  uint8ArrayToBase64 : Uint8Array -> bool -> string;
  base64ToUint8Array : string -> Completion Uint8Array;
  (* Number::toString, where toFixed falls back to it *)
  Number_toString : Number -> string
}.

Module GptTokenizer.
Record t : Type := { encode : string -> list Z }.
End GptTokenizer.

Module Yaml.
Record t : Type := {
  (* stringify(value, { indent }) *)
  stringify : JsValue -> Z -> Completion string;
  parse : string -> Completion Parsed
}.
End Yaml.

Module Papa.
Record ParseConfig : Type := { header : bool; dynamicTyping : bool }.
Record ParseError : Type := { type : string; code : string; message : string }.
(** [ParseResult] of papaparse: the rows parsed and the problems met on the
    way ([meta] is not read by the component). *)
Record ParseResult : Type := { data : JsValue; errors : list ParseError }.
Record t : Type := {
  unparse : JsValue -> Completion string;
  parse : string -> ParseConfig -> Completion ParseResult
}.
End Papa.

(** [JSON.stringify(value, undefined, space)] on what a parser returned: a
    TypeError on a cycle (message shortened), the text of a tree otherwise. *)
Definition JSON_stringify_parsed (E : Imports) (parsed : Parsed) (space : option Z)
  : Completion string :=
  match parsed with
  | Tree v => Normal (JSON_stringify E v space)
  | Cyclic => Throw (ErrorObject "Converting circular structure to JSON")
  end.

(** ** Types (lines 11-44) and state (lines 111-122) *)

(** What a share link carries. *)
Module PlaygroundState.
Record t : Type := { json : string; delimiter : Delimiter; indent : Z }.

(** The object literal [{ json, delimiter, indent }] as a value. *)
Definition to_value (p : t) : JsValue :=
  JObj [ ("json", JStr (json p));
         ("delimiter", JStr (delimiter_char (delimiter p)));
         ("indent", JNum (Number_of_Z (indent p))) ].
End PlaygroundState.


(** The type of [activeEditor]. *)
Inductive Editor : Type := ed_json | ed_yaml | ed_csv.

(** [BaseFormat.id]. *)
Inductive FormatId : Type := id_json | id_yaml | id_csv | id_toon.

Definition Editor_eqb (a b : Editor) : bool :=
  match a, b with
  | ed_json, ed_json | ed_yaml, ed_yaml | ed_csv, ed_csv => true
  | _, _ => false
  end.

(** The refs of the component (lines 111-122).  [indent] is a [number]; the
    specification speaks of integer widths, and so does the model. *)
Record State : Type := {
  jsonInput : string;
  yamlInput : string;
  csvInput : string;
  delimiter : Delimiter;
  indent : Z;
  activeEditor : Editor;
  tokenizer : option GptTokenizer.t;
  yaml : option Yaml.t;
  papa : option Papa.t
}.

Definition set_jsonInput (v : string) (s : State) : State :=
  {| jsonInput := v; yamlInput := yamlInput s; csvInput := csvInput s;
     delimiter := delimiter s; indent := indent s; activeEditor := activeEditor s;
     tokenizer := tokenizer s; yaml := yaml s; papa := papa s |}.

Definition set_yamlInput (v : string) (s : State) : State :=
  {| jsonInput := jsonInput s; yamlInput := v; csvInput := csvInput s;
     delimiter := delimiter s; indent := indent s; activeEditor := activeEditor s;
     tokenizer := tokenizer s; yaml := yaml s; papa := papa s |}.

Definition set_csvInput (v : string) (s : State) : State :=
  {| jsonInput := jsonInput s; yamlInput := yamlInput s; csvInput := v;
     delimiter := delimiter s; indent := indent s; activeEditor := activeEditor s;
     tokenizer := tokenizer s; yaml := yaml s; papa := papa s |}.

Definition set_delimiter (v : Delimiter) (s : State) : State :=
  {| jsonInput := jsonInput s; yamlInput := yamlInput s; csvInput := csvInput s;
     delimiter := v; indent := indent s; activeEditor := activeEditor s;
     tokenizer := tokenizer s; yaml := yaml s; papa := papa s |}.

Definition set_indent (v : Z) (s : State) : State :=
  {| jsonInput := jsonInput s; yamlInput := yamlInput s; csvInput := csvInput s;
     delimiter := delimiter s; indent := v; activeEditor := activeEditor s;
     tokenizer := tokenizer s; yaml := yaml s; papa := papa s |}.

Definition set_activeEditor (v : Editor) (s : State) : State :=
  {| jsonInput := jsonInput s; yamlInput := yamlInput s; csvInput := csvInput s;
     delimiter := delimiter s; indent := indent s; activeEditor := v;
     tokenizer := tokenizer s; yaml := yaml s; papa := papa s |}.

Definition set_tokenizer (v : option GptTokenizer.t) (s : State) : State :=
  {| jsonInput := jsonInput s; yamlInput := yamlInput s; csvInput := csvInput s;
     delimiter := delimiter s; indent := indent s; activeEditor := activeEditor s;
     tokenizer := v; yaml := yaml s; papa := papa s |}.

Definition set_yaml (v : option Yaml.t) (s : State) : State :=
  {| jsonInput := jsonInput s; yamlInput := yamlInput s; csvInput := csvInput s;
     delimiter := delimiter s; indent := indent s; activeEditor := activeEditor s;
     tokenizer := tokenizer s; yaml := v; papa := papa s |}.

Definition set_papa (v : option Papa.t) (s : State) : State :=
  {| jsonInput := jsonInput s; yamlInput := yamlInput s; csvInput := csvInput s;
     delimiter := delimiter s; indent := indent s; activeEditor := activeEditor s;
     tokenizer := tokenizer s; yaml := yaml s; papa := v |}.

(** ** Methods: state and exceptions

    A method reads and writes the refs and may throw; what it wrote before
    throwing stays written. *)
Definition M (A : Type) : Type := State -> Completion A * State.

Definition retM {A} (a : A) : M A := fun s => (Normal a, s).

Definition bindM {A B} (m : M A) (k : A -> M B) : M B :=
  fun s => match m s with
           | (Normal a, s') => k a s'
           | (Throw e, s') => (Throw e, s')
           end.

(** A library call inside a method. *)
Definition call {A} (c : Completion A) : M A := fun s => (c, s).

(** Reading the refs. *)
Definition read {A} (f : State -> A) : M A := fun s => (Normal (f s), s).

(** [ref.value = v]. *)
Definition assign (f : State -> State) : M unit := fun s => (Normal tt, f s).

Definition try_catch {A} (body : M A) (handler : Thrown -> M A) : M A :=
  fun s => match body s with
           | (Normal a, s') => (Normal a, s')
           | (Throw e, s') => handler e s'
           end.

Declare Scope method_scope.
Delimit Scope method_scope with M.
Notation "x <- c ;; k" := (bindM c (fun x => k))
  (at level 61, c at next level, right associativity) : method_scope.
Notation "c ;;; k" := (bindM c (fun _ => k))
  (at level 61, right associativity) : method_scope.

(** The refs a method leaves behind, and whether it threw. *)
Definition exec {A} (m : M A) (s : State) : State := snd (m s).
Definition returns {A} (m : M A) (s : State) : Prop := exists a, fst (m s) = Normal a.

(** ** Computed properties (lines 125-171) *)

Record ParsedJson : Type := { data : JsValue; error : option string }.

(** [if (parsedJson.value.error)]: the error is a message or [null]. *)
Definition has_error (p : ParsedJson) : bool :=
  match error p with
  | Some msg => truthy_string msg
  | None => false
  end.

(** [try { return text } catch { return '' }]. *)
Definition or_empty (c : Completion string) : string :=
  match c with Normal text => text | Throw _ => "" end.

(** [Array.isArray(d) ? d : [d]]. *)
Definition as_array (d : JsValue) : JsValue :=
  if isArray d then d else JArr [d].

Section Component.

Context (E : Imports).

Definition parsedJson (s : State) : ParsedJson :=
  match JSON_parse E (jsonInput s) with
  | Normal d => {| data := d; error := None |}
  | Throw (ErrorObject msg) => {| data := JNull; error := Some msg |}
  | Throw OtherThrown => {| data := JNull; error := Some "Invalid JSON" |}
  end.

Definition toonOutput (s : State) : string :=
  if has_error (parsedJson s) then ""
  else or_empty (encode E (data (parsedJson s))
                   {| Toon.indent := indent s; Toon.delimiter := delimiter s |}).

Definition yamlOutput (s : State) : string :=
  match yaml s with
  | None => ""
  | Some Y =>
      if has_error (parsedJson s) then ""
      else or_empty (Yaml.stringify Y (data (parsedJson s)) (indent s))
  end.

Definition csvOutput (s : State) : string :=
  match papa s with
  | None => ""
  | Some P =>
      if has_error (parsedJson s) then ""
      else or_empty (Papa.unparse P (as_array (data (parsedJson s))))
  end.

(** ** Cost calculator (lines 173-191) *)

(** [tokenizer.value?.encode(text).length]. *)
Definition calculateTokens (s : State) (text : string) : option Z :=
  match tokenizer s with
  | None => None
  | Some T => Some (Z.of_nat (List.length (GptTokenizer.encode T text)))
  end.

Definition jsonTokens (s : State) : option Z := calculateTokens s (jsonInput s).

Definition yamlTokens (s : State) : option Z :=
  if truthy_string (yamlOutput s) then calculateTokens s (yamlOutput s) else None.

Definition csvTokens (s : State) : option Z :=
  if truthy_string (csvOutput s) then calculateTokens s (csvOutput s) else None.

Definition toonTokens (s : State) : option Z :=
  if truthy_string (toonOutput s) then calculateTokens s (toonOutput s) else None.

(** [Number.prototype.toFixed(f)] (ECMA-262, 21.1.3.3) for [0 <= f <= 100]. *)

Definition decimal (n : Z) : string := NilEmpty.string_of_uint (N.to_uint (Z.to_N n)).

Fixpoint zeros (k : nat) : string :=
  match k with O => EmptyString | S k' => String "0" (zeros k') end.

(** Step 11.c: the digits of [n], with the point before the last [f] of them. *)
Definition fixed_notation (n : Z) (f : nat) : string :=
  let m := decimal n in
  match f with
  | O => m
  | _ =>
      let k := String.length m in
      let m := if (k <=? f)%nat then zeros (f + 1 - k) ++ m else m in
      let k := String.length m in
      substring 0 (k - f) m ++ "." ++ substring (k - f) f m
  end.

(** Step 11.a: the integer [n] for which [n / 10^f - m * 2^e] is closest to
    zero, the larger one when there are two. *)
Definition nearest_scaled (m : positive) (e : Z) (f : nat) : Z :=
  let q := Zpos m * 10 ^ Z.of_nat f in
  if 0 <=? e then q * 2 ^ e
  else (2 * q + 2 ^ (- e)) / (2 * 2 ^ (- e)).

(** Step 10: [m * 2^e >= 10^21]. *)
Definition at_least_1e21 (m : positive) (e : Z) : bool :=
  if 0 <=? e then 10 ^ 21 <=? Zpos m * 2 ^ e
  else 10 ^ 21 * 2 ^ (- e) <=? Zpos m.

Definition toFixed (x : Number) (f : nat) : string :=
  match x with
  | S754_nan | S754_infinity _ => Number_toString E x
  | S754_zero _ => fixed_notation 0 f
  | S754_finite negative m e =>
      (if negative then "-" else "") ++
      (if at_least_1e21 m e then Number_toString E (Math_abs x)
       else fixed_notation (nearest_scaled m e f) f)
  end.

Inductive PlusOrMinus : Type := Plus | Minus.

Record Savings : Type := {
  diff : Z;
  percent : string;
  sign : PlusOrMinus;
  isSavings : bool
}.

(** [!tokens] for [tokens?: number]: absent, or zero. *)
Definition no_tokens (tokens : option Z) : bool :=
  match tokens with None => true | Some n => n =? 0 end.

Definition percent_of (diff baseTokens : Z) : string :=
  toFixed (Math_abs (Number_mul (Number_div (Number_of_Z diff) (Number_of_Z baseTokens))
                                (Number_of_Z 100))) 1.

(** The arguments are token counts, that is lengths of arrays: integers
    below [2^32], far inside the range (up to [2^53]) where the subtraction
    and the comparisons of the code are the exact ones written here. *)
Definition calculateSavings (baseTokens compareTokens : option Z) : option Savings :=
  if no_tokens baseTokens || no_tokens compareTokens then None
  else
    match baseTokens, compareTokens with
    | Some b, Some c =>
        let diff := b - c in
        Some {| diff := diff;
                percent := percent_of diff b;
                sign := if 0 <? diff then Minus else Plus;
                isSavings := 0 <? diff |}
    | _, _ => None   (* not reached: the guard has returned *)
    end.

End Component.

(** ** The panes (lines 193-225) *)

Module Format.
Record t : Type := {
  id : FormatId;
  title : string;
  editable : bool;
  output : string;
  tokens : option Z;
  savings : option Savings
}.
End Format.

Definition formats (E : Imports) (s : State) : list Format.t :=
  [ {| Format.id := id_json; Format.title := "JSON Input"; Format.editable := true;
       Format.output := jsonInput s; Format.tokens := jsonTokens s;
       Format.savings := None |};
    {| Format.id := id_toon; Format.title := "TOON Output"; Format.editable := false;
       Format.output := toonOutput E s; Format.tokens := toonTokens E s;
       Format.savings := calculateSavings E (jsonTokens s) (toonTokens E s) |};
    {| Format.id := id_yaml; Format.title := "YAML"; Format.editable := true;
       Format.output := yamlOutput E s; Format.tokens := yamlTokens E s;
       Format.savings := calculateSavings E (jsonTokens s) (yamlTokens E s) |};
    {| Format.id := id_csv; Format.title := "CSV"; Format.editable := true;
       Format.output := csvOutput E s; Format.tokens := csvTokens E s;
       Format.savings := calculateSavings E (jsonTokens s) (csvTokens E s) |} ].

(** The pane with a given id; the template binds a textarea's [:value] (and a
    [<pre>]'s content) to its [output]. *)
Definition pane (E : Imports) (s : State) (i : FormatId) : option Format.t :=
  find (fun f => match Format.id f, i with
                 | id_json, id_json | id_yaml, id_yaml
                 | id_csv, id_csv | id_toon, id_toon => true
                 | _, _ => false
                 end) (formats E s).

(** ** Methods (lines 235-354) *)

Section Methods.

Context (E : Imports).

Local Open Scope method_scope.

Definition csv_config : Papa.ParseConfig :=
  {| Papa.header := true; Papa.dynamicTyping := true |}.

Definition parseInput_yaml (value : string) : M unit :=
  lib <- read yaml ;;
  match lib with
  | None => retM tt
  | Some Y =>
      try_catch
        (parsed <- call (Yaml.parse Y value) ;;
         text <- call (JSON_stringify_parsed E parsed (Some 2)) ;;
         assign (set_jsonInput text))
        (fun _ => retM tt)
  end.

Definition parseInput_csv (value : string) : M unit :=
  lib <- read papa ;;
  match lib with
  | None => retM tt
  | Some P =>
      try_catch
        (result <- call (Papa.parse P value csv_config) ;;
         if truthy (Papa.data result)
         then assign (set_jsonInput (JSON_stringify E (Papa.data result) (Some 2)))
         else retM tt)
        (fun _ => retM tt)
  end.

Definition syncOutputs : M unit :=
  active <- read activeEditor ;;
  parsed <- read (parsedJson E) ;;
  if negb (Editor_eqb active ed_json) || has_error parsed then retM tt
  else
    (lib <- read yaml ;;
     match lib with
     | Some Y =>
         width <- read indent ;;
         text <- call (Yaml.stringify Y (data parsed) width) ;;
         assign (set_yamlInput text)
     | None => retM tt
     end) ;;;
    (lib <- read papa ;;
     match lib with
     | Some P =>
         text <- call (Papa.unparse P (as_array (data parsed))) ;;
         assign (set_csvInput text)
     | None => retM tt
     end).

(** [const state: PlaygroundState = { json: jsonInput.value, ... }]. *)
Definition playgroundState (s : State) : PlaygroundState.t :=
  {| PlaygroundState.json := jsonInput s;
     PlaygroundState.delimiter := delimiter s;
     PlaygroundState.indent := indent s |}.

Definition encodeState (s : State) : string :=
  let state := playgroundState s in
  let compressed :=
    zlibSync E (stringToUint8Array E
                  (JSON_stringify E (PlaygroundState.to_value state) None)) in
  uint8ArrayToBase64 E compressed true.

(** The declared result is [PlaygroundState | undefined]; what is returned is
    whatever [JSON.parse] produced. *)
Definition decodeState (hash : string) : Completion (option JsValue) :=
  try_catchC
    (bytes <- base64ToUint8Array E hash ;;
     decompressed <- unzlibSync E bytes ;;
     decoded <- uint8ArrayToString E decompressed ;;
     if truthy_string decoded
     then (state <- JSON_parse E decoded ;; Normal (Some state))
     else Normal None)%C
    (fun _ => Normal None).

(** [loadPreset(name)], given [PRESETS[name]]. *)
Definition loadPreset (preset : JsValue) : M unit :=
  assign (set_activeEditor ed_json) ;;;
  assign (set_jsonInput (JSON_stringify E preset (Some 2))).

Definition updateEditorInput (formatId : FormatId) (value : string) : M unit :=
  match formatId with
  | id_json => assign (set_jsonInput value)
  | id_yaml => assign (set_yamlInput value)
  | id_csv => assign (set_csvInput value)
  | id_toon => retM tt
  end.

Definition handleEditorFocus (formatId : FormatId) : M unit :=
  match formatId with
  | id_json => assign (set_activeEditor ed_json)
  | id_yaml => assign (set_activeEditor ed_yaml)
  | id_csv => assign (set_activeEditor ed_csv)
  | id_toon => retM tt
  end.

(** ** Watchers (lines 357-360) and the scheduler

    [watch(source, cb)] keeps the value of [source] it saw last; its job
    runs [cb] when the current value differs, and an error thrown by [cb] is
    logged by the framework, not propagated.  Jobs run after the event handler
    has returned, in the order the watchers were created, until no watched ref
    has changed. *)

Record Watchers : Type := {
  seen_jsonInput : string;
  seen_yamlInput : string;
  seen_csvInput : string
}.

Record App : Type := { refs : State; watchers : Watchers }.

(** [() => activeEditor.value === 'yaml' && parseInput.yaml(yamlInput.value)] *)
Definition on_yamlInput : M unit :=
  active <- read activeEditor ;;
  if Editor_eqb active ed_yaml
  then (value <- read yamlInput ;; parseInput_yaml value)
  else retM tt.

Definition on_csvInput : M unit :=
  active <- read activeEditor ;;
  if Editor_eqb active ed_csv
  then (value <- read csvInput ;; parseInput_csv value)
  else retM tt.

Definition job_jsonInput (a : App) : App :=
  if (jsonInput (refs a) =? seen_jsonInput (watchers a))%string then a
  else {| refs := exec syncOutputs (refs a);
          watchers := {| seen_jsonInput := jsonInput (refs a);
                         seen_yamlInput := seen_yamlInput (watchers a);
                         seen_csvInput := seen_csvInput (watchers a) |} |}.

Definition job_yamlInput (a : App) : App :=
  if (yamlInput (refs a) =? seen_yamlInput (watchers a))%string then a
  else {| refs := exec on_yamlInput (refs a);
          watchers := {| seen_jsonInput := seen_jsonInput (watchers a);
                         seen_yamlInput := yamlInput (refs a);
                         seen_csvInput := seen_csvInput (watchers a) |} |}.

Definition job_csvInput (a : App) : App :=
  if (csvInput (refs a) =? seen_csvInput (watchers a))%string then a
  else {| refs := exec on_csvInput (refs a);
          watchers := {| seen_jsonInput := seen_jsonInput (watchers a);
                         seen_yamlInput := seen_yamlInput (watchers a);
                         seen_csvInput := csvInput (refs a) |} |}.

(** Some watched ref differs from what its watcher saw last. *)
Definition pending (a : App) : bool :=
  negb ((jsonInput (refs a) =? seen_jsonInput (watchers a))%string
        && (yamlInput (refs a) =? seen_yamlInput (watchers a))%string
        && (csvInput (refs a) =? seen_csvInput (watchers a))%string).

Definition run_jobs (a : App) : App := job_csvInput (job_yamlInput (job_jsonInput a)).

Fixpoint flushJobs (rounds : nat) (a : App) : App :=
  match rounds with
  | O => a
  | S n => if pending a then flushJobs n (run_jobs a) else a
  end.

(** Rounds allowed to one flush; two settle every cascade of this component
    ([flushJobs_settles]). *)
Definition recursion_limit : nat := 100.

(** What reaches the component from outside. *)
Inductive Event : Type :=
| Input (formatId : FormatId) (value : string)   (* @input of a textarea *)
| Focus (formatId : FormatId)                    (* @focus of a textarea *)
| SelectDelimiter (d : Delimiter)                (* v-model="delimiter" *)
| EnterIndent (width : Z)                        (* v-model.number="indent" *)
| SelectPreset (preset : JsValue)                (* @change of the preset list *)
| TokenizerLoaded (T : GptTokenizer.t)           (* loadLibraries, first await *)
| YamlLoaded (Y : Yaml.t)                        (* loadLibraries, second await *)
| PapaLoaded (P : Papa.t).                       (* loadLibraries, third await *)

Definition handle (ev : Event) : M unit :=
  match ev with
  | Input formatId value => updateEditorInput formatId value
  | Focus formatId => handleEditorFocus formatId
  | SelectDelimiter d => assign (set_delimiter d)
  | EnterIndent width => assign (set_indent width)
  | SelectPreset preset => loadPreset preset
  | TokenizerLoaded T => assign (set_tokenizer (Some T))
  | YamlLoaded Y => assign (set_yaml (Some Y))
  | PapaLoaded P => assign (set_papa (Some P)) ;;; syncOutputs
  end.

(** One event: its handler, then the watcher jobs it queued. *)
Definition dispatch (ev : Event) (a : App) : App :=
  flushJobs recursion_limit
    {| refs := exec (handle ev) (refs a); watchers := watchers a |}.

Definition run (evs : list Event) (a : App) : App :=
  fold_left (fun a ev => dispatch ev a) evs a.

(** An app at rest in state [s]: every watcher has seen the current value. *)
Definition at_rest (s : State) : App :=
  {| refs := s;
     watchers := {| seen_jsonInput := jsonInput s;
                    seen_yamlInput := yamlInput s;
                    seen_csvInput := csvInput s |} |}.

(** The ref behind an editor. *)
Definition buffer (ed : Editor) (s : State) : string :=
  match ed with
  | ed_json => jsonInput s
  | ed_yaml => yamlInput s
  | ed_csv => csvInput s
  end.

(** The pane of an editor. *)
Definition editor_id (ed : Editor) : FormatId :=
  match ed with
  | ed_json => id_json
  | ed_yaml => id_yaml
  | ed_csv => id_csv
  end.

End Methods.

(** ** Share link and startup (lines 301-336 and 363-366)

    [updateUrl] is debounced; what is modelled is the function it wraps, that
    is, what it does when the timer lets it run.  [restoreState] reads
    [window.location.hash] and assigns three properties of the decoded value
    to the refs without looking at them; since a ref of the typed [State]
    cannot hold an arbitrary value, the model returns the three right-hand
    sides instead of storing them. *)

(** [text.slice(1)]. *)
Definition slice1 (text : string) : string :=
  match text with
  | EmptyString => EmptyString
  | String _ rest => rest
  end.

(** [v.key] for a truthy [v] and a key that [Object.prototype] does not
    define; [None] is [undefined]. *)
Definition property (v : JsValue) (key : string) : option JsValue :=
  match v with
  | JObj fields =>
      option_map snd (find (fun field => (fst field =? key)%string) fields)
  | _ => None
  end.

(** The right-hand sides of [jsonInput.value = state.json],
    [delimiter.value = state.delimiter] and [indent.value = state.indent]. *)
Record Restored : Type := {
  restored_json : option JsValue;
  restored_delimiter : option JsValue;
  restored_indent : option JsValue
}.

Section Link.

Context (E : Imports).

(** The URL handed to [window.history.replaceState], if any
    ([window_defined] is [typeof window !== 'undefined']). *)
Definition updateUrl (window_defined : bool) (s : State) : option string :=
  if negb window_defined then None
  else Some ("#" ++ encodeState E s).

(** [None]: the function returns without assigning. *)
Definition restoreState (location_hash : string) : Completion (option Restored) :=
  let hash := slice1 location_hash in
  if negb (truthy_string hash) then Normal None
  else
    (state <- decodeState E hash ;;
     match state with
     | Some v =>
         if truthy v
         then Normal (Some {| restored_json := property v "json";
                              restored_delimiter := property v "delimiter";
                              restored_indent := property v "indent" |})
         else Normal None
     | None => Normal None
     end)%C.

(** The three continuations of [loadLibraries], in the order of its awaits. *)
Definition loadLibraries (T : GptTokenizer.t) (Y : Yaml.t) (P : Papa.t) : list Event :=
  [TokenizerLoaded T; YamlLoaded Y; PapaLoaded P].

End Link.

(** ** A sample environment

    Concrete libraries to run the component on.  Each table lists what the
    real library answers on the inputs used further down (error messages
    shortened); outside its table a function answers with a default that no
    statement below relies on.  The tokenizer and the compression are
    stand-ins. *)

Module Sample.

Definition nl : string := String (ascii_of_nat 10) EmptyString.
Definition cr : string := String (ascii_of_nat 13) EmptyString.
Definition dq : string := String (ascii_of_nat 34) EmptyString.
Definition quoted (s : string) : string := dq ++ s ++ dq.

Definition Number_same (x y : Number) : bool :=
  match x, y with
  | S754_zero a, S754_zero b => Bool.eqb a b
  | S754_infinity a, S754_infinity b => Bool.eqb a b
  | S754_nan, S754_nan => true
  | S754_finite a m e, S754_finite b m' e' => Bool.eqb a b && (m =? m')%positive && (e =? e')
  | _, _ => false
  end.

Fixpoint JsValue_eqb (a b : JsValue) {struct a} : bool :=
  match a, b with
  | JNull, JNull => true
  | JBool x, JBool y => Bool.eqb x y
  | JNum x, JNum y => Number_same x y
  | JStr x, JStr y => (x =? y)%string
  | JArr xs, JArr ys =>
      (fix all2 (xs ys : list JsValue) {struct xs} : bool :=
         match xs, ys with
         | [], [] => true
         | x :: xs', y :: ys' => JsValue_eqb x y && all2 xs' ys'
         | _, _ => false
         end) xs ys
  | JObj xs, JObj ys =>
      (fix all2 (xs ys : list (string * JsValue)) {struct xs} : bool :=
         match xs, ys with
         | [], [] => true
         | (k, x) :: xs', (k', y) :: ys' => (k =? k')%string && JsValue_eqb x y && all2 xs' ys'
         | _, _ => false
         end) xs ys
  | _, _ => false
  end.

Fixpoint lookup_text {A} (key : string) (table : list (string * A)) : option A :=
  match table with
  | [] => None
  | (k, a) :: rest => if (k =? key)%string then Some a else lookup_text key rest
  end.

Fixpoint lookup_value {A} (key : JsValue) (table : list (JsValue * A)) : option A :=
  match table with
  | [] => None
  | (k, a) :: rest => if JsValue_eqb k key then Some a else lookup_value key rest
  end.

(** Documents. *)
Definition one : JsValue := JNum (Number_of_Z 1).
Definition two : JsValue := JNum (Number_of_Z 2).
Definition list1 : JsValue := JArr [one].                           (* [1] *)
Definition rows : JsValue := JArr [JObj [("a", one); ("b", two)]].  (* [{a: 1, b: 2}] *)
Definition record : JsValue := JObj [("a", one); ("b", two)].       (* {a: 1, b: 2} *)
Definition session : PlaygroundState.t :=
  {| PlaygroundState.json := "[1]";
     PlaygroundState.delimiter := Comma;
     PlaygroundState.indent := 2 |}.

Definition session_pipe : PlaygroundState.t :=
  {| PlaygroundState.json := "[1]";
     PlaygroundState.delimiter := Pipe;
     PlaygroundState.indent := 4 |}.

(** JSON: a document, its text without [space], its text with [space = 2]. *)
Definition rows_pretty : string :=
  "[" ++ nl ++ "  {" ++ nl ++ "    " ++ quoted "a" ++ ": 1," ++ nl
      ++ "    " ++ quoted "b" ++ ": 2" ++ nl ++ "  }" ++ nl ++ "]".
Definition list1_pretty : string := "[" ++ nl ++ "  1" ++ nl ++ "]".
Definition session_text : string :=
  "{" ++ quoted "json" ++ ":" ++ quoted "[1]" ++ "," ++ quoted "delimiter" ++ ":"
      ++ quoted "," ++ "," ++ quoted "indent" ++ ":2}".
Definition session_pretty : string :=
  "{" ++ nl ++ "  " ++ quoted "json" ++ ": " ++ quoted "[1]" ++ "," ++ nl
      ++ "  " ++ quoted "delimiter" ++ ": " ++ quoted "," ++ "," ++ nl
      ++ "  " ++ quoted "indent" ++ ": 2" ++ nl ++ "}".

Definition record_text : string := "{" ++ quoted "a" ++ ":1," ++ quoted "b" ++ ":2}".
Definition record_pretty : string :=
  "{" ++ nl ++ "  " ++ quoted "a" ++ ": 1," ++ nl ++ "  " ++ quoted "b" ++ ": 2" ++ nl ++ "}".
Definition session_pipe_text : string :=
  "{" ++ quoted "json" ++ ":" ++ quoted "[1]" ++ "," ++ quoted "delimiter" ++ ":"
      ++ quoted "|" ++ "," ++ quoted "indent" ++ ":4}".
Definition session_pipe_pretty : string :=
  "{" ++ nl ++ "  " ++ quoted "json" ++ ": " ++ quoted "[1]" ++ "," ++ nl
      ++ "  " ++ quoted "delimiter" ++ ": " ++ quoted "|" ++ "," ++ nl
      ++ "  " ++ quoted "indent" ++ ": 4" ++ nl ++ "}".

Definition json_table : list (JsValue * (string * string)) :=
  [ (one, ("1", "1"));
    (list1, ("[1]", list1_pretty));
    (rows, ("[{" ++ quoted "a" ++ ":1," ++ quoted "b" ++ ":2}]", rows_pretty));
    (PlaygroundState.to_value session, (session_text, session_pretty));
    (record, (record_text, record_pretty));
    (PlaygroundState.to_value session_pipe, (session_pipe_text, session_pipe_pretty)) ].

Definition json_parse (text : string) : Completion JsValue :=
  match find (fun row => (fst (snd row) =? text)%string || (snd (snd row) =? text)%string)
             json_table with
  | Some row => Normal (fst row)
  | None => Throw (ErrorObject "Unexpected end of JSON input")
  end.

Definition json_stringify (v : JsValue) (space : option Z) : string :=
  match lookup_value v json_table, space with
  | Some (compact, _), None => compact
  | Some (_, pretty), Some _ => pretty
  | None, _ => "null"
  end.

(** TOON, for the comma delimiter: a root array of primitives is one line, a
    root array of uniform objects a table (given for an indent of two), a
    root object of primitives a line per key. *)
Definition toon_encode (v : JsValue) (options : Toon.EncodeOptions) : Completion string :=
  match Toon.delimiter options with
  | Comma =>
      if JsValue_eqb v one then Normal "1"
      else if JsValue_eqb v list1 then Normal "[1]: 1"
      else if JsValue_eqb v rows && (Toon.indent options =? 2)
           then Normal ("[1]{a,b}:" ++ nl ++ "  1,2")
           else if JsValue_eqb v record then Normal ("a: 1" ++ nl ++ "b: 2")
                else Throw (ErrorObject "outside the sample")
  | _ => Throw (ErrorObject "outside the sample")
  end.

(** yaml: block style on output (the table of [rows] is given for an indent
    of two); on input, a text that is not in the table is read as a plain
    scalar.  The last text of the table is an anchored sequence whose only
    item is an alias to itself. *)
Definition yaml_lib : Yaml.t :=
  {| Yaml.stringify := fun v width =>
       if JsValue_eqb v one then Normal ("1" ++ nl)
       else if JsValue_eqb v list1 then Normal ("- 1" ++ nl)
       else if JsValue_eqb v rows && (width =? 2)
            then Normal ("- a: 1" ++ nl ++ "  b: 2" ++ nl)
            else if JsValue_eqb v record then Normal ("a: 1" ++ nl ++ "b: 2" ++ nl)
                 else Throw (ErrorObject "outside the sample");
     Yaml.parse := fun text =>
       match lookup_text text [ ("1", Normal (Tree one)); ("1" ++ nl, Normal (Tree one));
                                ("[1]", Normal (Tree list1));
                                ("- 1" ++ nl, Normal (Tree list1));
                                ("[1", Throw (ErrorObject
                                  "Flow sequence must end with a ]"));
                                ("&a [*a]", Normal Cyclic) ] with
       | Some c => c
       | None => Normal (Tree (JStr text))
       end |}.

(** papaparse: [unparse] refuses an array whose first element is neither an
    array nor an object; [parse] never throws on malformed text, it reports
    the problem in [errors] and returns the rows it read.  The malformed text
    here is the header [a,b] over a row [1,2] whose second field opens a
    quote that is never closed. *)
Definition missing_quotes : Papa.ParseError :=
  {| Papa.type := "Quotes"; Papa.code := "MissingQuotes";
     Papa.message := "Quoted field unterminated" |}.

Definition unterminated_csv : string := "a,b" ++ nl ++ "1," ++ dq ++ "2".

Definition papa_lib : Papa.t :=
  {| Papa.unparse := fun v =>
       match lookup_value v [ (rows, "a,b" ++ cr ++ nl ++ "1,2") ] with
       | Some text => Normal text
       | None => Throw (ErrorObject "Unable to serialize unrecognized input")
       end;
     Papa.parse := fun text config =>
       match lookup_text text
               [ ("a,b" ++ cr ++ nl ++ "1,2", {| Papa.data := rows; Papa.errors := [] |});
                 (unterminated_csv,
                  {| Papa.data := rows; Papa.errors := [missing_quotes] |}) ] with
       | Some result =>
           if Papa.dynamicTyping config then Normal result
           else Normal {| Papa.data := JArr [JObj [("a", JStr "1"); ("b", JStr "2")]];
                          Papa.errors := Papa.errors result |}
       | None => Normal {| Papa.data := JArr []; Papa.errors := [] |}
       end |}.

(** Stand-in for gpt-tokenizer: one token per byte; like the real encoder it
    gives no token for the empty text. *)
Definition gpt_tokenizer : GptTokenizer.t :=
  {| GptTokenizer.encode := fun text =>
       map (fun b => Z.of_N (Byte.to_N b)) (list_byte_of_string text) |}.

(** Base64URL without padding, as [uint8ArrayToBase64(_, { urlSafe: true })]
    writes it (the only way the component calls it). *)
Definition alphabet : string :=
  "ABCDEFGHIJKLMNOPQRSTUVWXYZabcdefghijklmnopqrstuvwxyz0123456789-_".

Definition sextet (n : N) : string :=
  match String.get (N.to_nat (n mod 64)) alphabet with
  | Some c => String c EmptyString
  | None => EmptyString
  end.

Fixpoint to_base64 (bytes : list N) : string :=
  match bytes with
  | [] => EmptyString
  | [a] => sextet (a / 4) ++ sextet (a * 16)
  | [a; b] => sextet (a / 4) ++ sextet (a * 16 + b / 16) ++ sextet (b * 4)
  | a :: b :: c :: rest =>
      sextet (a / 4) ++ sextet (a * 16 + b / 16) ++ sextet (b * 4 + c / 64) ++ sextet c
        ++ to_base64 rest
  end%N.

Fixpoint index_of (c : ascii) (s : string) : option N :=
  match s with
  | EmptyString => None
  | String c' s' => if Ascii.eqb c c' then Some 0%N else option_map N.succ (index_of c s')
  end.

Fixpoint sextets (s : string) : option (list N) :=
  match s with
  | EmptyString => Some []
  | String c s' =>
      match index_of c alphabet, sextets s' with
      | Some n, Some ns => Some (n :: ns)
      | _, _ => None
      end
  end.

Fixpoint from_sextets (ns : list N) : option (list N) :=
  match ns with
  | [] => Some []
  | [_] => None
  | [p; q] => Some [p * 4 + q / 16]
  | [p; q; r] => Some [p * 4 + q / 16; (q mod 16) * 16 + r / 4]
  | p :: q :: r :: t :: rest =>
      option_map (fun bytes => (p * 4 + q / 16) :: ((q mod 16) * 16 + r / 4)
                                 :: ((r mod 4) * 64 + t) :: bytes)
                 (from_sextets rest)
  end%N.

Definition byte_of (n : N) : Byte.byte :=
  match Byte.of_N n with Some b => b | None => Byte.x00 end.

Definition to_base64url (bytes : Uint8Array) (urlSafe : bool) : string :=
  to_base64 (map Byte.to_N bytes).

Definition from_base64url (text : string) : Completion Uint8Array :=
  match sextets text with
  | Some ns =>
      match from_sextets ns with
      | Some bytes => Normal (map byte_of bytes)
      | None => Throw (ErrorObject "The string to be decoded is not correctly encoded.")
      end
  | None => Throw (ErrorObject "The string to be decoded is not correctly encoded.")
  end.

(** Stand-in for fflate: the zlib header, then the bytes as they are. *)
Definition deflate (bytes : Uint8Array) : Uint8Array :=
  Byte.x78 :: Byte.x9c :: bytes.

Definition inflate (bytes : Uint8Array) : Completion Uint8Array :=
  match bytes with
  | Byte.x78 :: Byte.x9c :: rest => Normal rest
  | _ => Throw (ErrorObject "invalid zlib data")
  end.

Definition imports : Imports :=
  {| JSON_parse := json_parse;
     JSON_stringify := json_stringify;
     encode := toon_encode;
     zlibSync := deflate;
     unzlibSync := inflate;
     stringToUint8Array := list_byte_of_string;
     uint8ArrayToString := fun bytes => Normal (string_of_list_byte bytes);
     uint8ArrayToBase64 := to_base64url;
     base64ToUint8Array := from_base64url;
     Number_toString := fun _ => "NaN" |}.

(** A session with every library loaded, ready for the given editor. *)
Definition loaded (text : string) (active : Editor) : State :=
  {| jsonInput := text; yamlInput := EmptyString; csvInput := EmptyString;
     delimiter := Comma; indent := 2; activeEditor := active;
     tokenizer := Some gpt_tokenizer; yaml := Some yaml_lib;
     papa := Some papa_lib |}.

(** The component as mounted on the text of [rows], before any library has
    arrived, and after all three have. *)
Definition mounted : App :=
  at_rest {| jsonInput := rows_pretty; yamlInput := EmptyString; csvInput := EmptyString;
             delimiter := Comma; indent := 2; activeEditor := ed_json;
             tokenizer := None; yaml := None; papa := None |}.

Definition started : App :=
  run imports [TokenizerLoaded gpt_tokenizer; YamlLoaded yaml_lib; PapaLoaded papa_lib]
      mounted.

(** yaml checks its options before it serialises: an [indent] that is not a
    positive integer makes [stringify] throw (message shortened). *)
Definition yaml_checked : Yaml.t :=
  {| Yaml.stringify := fun v width =>
       if width <=? 0
       then Throw (ErrorObject "indent option must be a positive integer, not 0")
       else Yaml.stringify yaml_lib v width;
     Yaml.parse := Yaml.parse yaml_lib |}.

(** The sample session with that library and an indent of zero, the minimum
    the indent field allows. *)
Definition unindented : State :=
  set_indent 0 (set_yaml (Some yaml_checked) (refs started)).

End Sample.

(** ** Reference values for the cost calculator

    A number of tenths written in decimal with one digit after the point,
    as in [63.7] for 637. *)
Definition one_decimal (tenths : Z) : string :=
  NilEmpty.string_of_uint (N.to_uint (Z.to_N (tenths / 10)))
  ++ "." ++ NilEmpty.string_of_uint (N.to_uint (Z.to_N (tenths mod 10))).

(** Where a quantity [X] sits between two multiples of a step [S]: the round
    and sticky bits of a shift record. *)
Definition located (X M S : Z) (round sticky : bool) : Prop :=
  M * S <= X < (M + 1) * S /\
  match round, sticky with
  | false, false => X = M * S
  | false, true => 0 < 2 * (X - M * S) < S
  | true, false => 2 * (X - M * S) = S
  | true, true => S < 2 * (X - M * S)
  end.

(** ** Settings

    Two states agree on the refs that no watcher callback assigns: the
    options, the active editor and the libraries. *)
Definition same_settings (s s' : State) : Prop :=
  delimiter s' = delimiter s /\ indent s' = indent s /\
  activeEditor s' = activeEditor s /\ tokenizer s' = tokenizer s /\
  yaml s' = yaml s /\ papa s' = papa s.

(** ** Proof automation *)

Ltac run_method :=
  unfold exec, returns, on_yamlInput, on_csvInput, loadPreset, updateEditorInput,
    handleEditorFocus, syncOutputs, parseInput_yaml, parseInput_csv,
    JSON_stringify_parsed, bindM, try_catch, call, read, assign, retM;
  simpl.

(* Case analysis on the innermost scrutinee first. *)
Ltac split_cases :=
  repeat match goal with
         | |- context [match ?x with _ => _ end] =>
             lazymatch x with
             | context [match _ with _ => _ end] => fail
             | _ => destruct x eqn:?; simpl
             end
         end.

(** * Properties *)

(** ** How the methods touch the refs *)

Section Frames.

Context (E : Imports).

(** [parsedJson] reads [jsonInput] and nothing else. *)
Lemma parsedJson_reads_jsonInput (s s' : State) :
  jsonInput s = jsonInput s' -> parsedJson E s = parsedJson E s'.
Proof. unfold parsedJson. intros ->. reflexivity. Qed.

(** The canonical Document is in error when [JSON.parse] threw, unless it
    threw an [Error] whose message is empty. *)
Lemma has_error_spec (s : State) :
  has_error (parsedJson E s) = true <->
  JSON_parse E (jsonInput s) = Throw OtherThrown \/
  exists msg, JSON_parse E (jsonInput s) = Throw (ErrorObject msg) /\ msg <> EmptyString.
Proof.
  unfold has_error, parsedJson.
  destruct (JSON_parse E (jsonInput s)) as [d | [msg |]]; simpl.
  - split; [discriminate | intros [H | (msg & H & _)]; discriminate].
  - unfold truthy_string. rewrite negb_true_iff, String.eqb_neq. split.
    + intros Hmsg. right. now exists msg.
    + intros [H | (msg' & [= ->] & Hmsg)]; [discriminate | exact Hmsg].
  - split; [now left | reflexivity].
Qed.

(** [syncOutputs] writes [yamlInput] and [csvInput] only. *)
Lemma syncOutputs_writes (s : State) :
  let s' := exec (syncOutputs E) s in
  jsonInput s' = jsonInput s /\ activeEditor s' = activeEditor s /\
  delimiter s' = delimiter s /\ indent s' = indent s /\
  tokenizer s' = tokenizer s /\ yaml s' = yaml s /\ papa s' = papa s.
Proof. run_method. split_cases; repeat split; congruence. Qed.

(** The guard of [syncOutputs], first half: another editor is active. *)
Lemma syncOutputs_other_editor (s : State) :
  activeEditor s <> ed_json -> syncOutputs E s = (Normal tt, s).
Proof.
  intros Hactive. run_method.
  destruct (activeEditor s); simpl; [contradiction | reflexivity | reflexivity].
Qed.

(** The guard of [syncOutputs], second half: the canonical text is in error. *)
Lemma syncOutputs_on_error (s : State) :
  has_error (parsedJson E s) = true -> syncOutputs E s = (Normal tt, s).
Proof.
  intros Herr. run_method. rewrite Herr, orb_true_r. reflexivity.
Qed.


Lemma parseInput_csv_writes (value : string) (s : State) :
  let s' := exec (parseInput_csv E value) s in
  returns (parseInput_csv E value) s /\
  yamlInput s' = yamlInput s /\ csvInput s' = csvInput s /\
  activeEditor s' = activeEditor s /\ delimiter s' = delimiter s /\
  indent s' = indent s /\ tokenizer s' = tokenizer s /\
  yaml s' = yaml s /\ papa s' = papa s.
Proof. run_method. split_cases; repeat split; try congruence; eexists; reflexivity. Qed.

(** The watcher callbacks of the two alternate editors do nothing unless
    their editor is the active one. *)
Lemma on_yamlInput_inactive (s : State) :
  activeEditor s <> ed_yaml -> exec (on_yamlInput E) s = s.
Proof.
  intros Hactive. run_method.
  destruct (activeEditor s); simpl; [reflexivity | contradiction | reflexivity].
Qed.

Lemma on_csvInput_inactive (s : State) :
  activeEditor s <> ed_csv -> exec (on_csvInput E) s = s.
Proof.
  intros Hactive. run_method.
  destruct (activeEditor s); simpl; [reflexivity | reflexivity | contradiction].
Qed.

Lemma on_yamlInput_writes (s : State) :
  let s' := exec (on_yamlInput E) s in
  yamlInput s' = yamlInput s /\ csvInput s' = csvInput s /\
  activeEditor s' = activeEditor s.
Proof. run_method. split_cases; repeat split; congruence. Qed.

Lemma on_csvInput_writes (s : State) :
  let s' := exec (on_csvInput E) s in
  yamlInput s' = yamlInput s /\ csvInput s' = csvInput s /\
  activeEditor s' = activeEditor s.
Proof. run_method. split_cases; repeat split; congruence. Qed.

End Frames.

(** ** The scheduler *)

Section Scheduler.

Context (E : Imports).

Lemma pending_false (a : App) :
  pending a = false <->
  jsonInput (refs a) = seen_jsonInput (watchers a) /\
  yamlInput (refs a) = seen_yamlInput (watchers a) /\
  csvInput (refs a) = seen_csvInput (watchers a).
Proof.
  unfold pending. rewrite negb_false_iff, !andb_true_iff, !String.eqb_eq. tauto.
Qed.

Lemma flushJobs_step (n : nat) (a : App) :
  flushJobs E (S n) a = if pending a then flushJobs E n (run_jobs E a) else a.
Proof. reflexivity. Qed.

Lemma flushJobs_at_rest (n : nat) (a : App) :
  pending a = false -> flushJobs E n a = a.
Proof. intros Hrest. destruct n; simpl; [reflexivity | now rewrite Hrest]. Qed.

(** The job of [watch(jsonInput, syncOutputs)]. *)
Lemma job_jsonInput_after (a : App) :
  let a' := job_jsonInput E a in
  jsonInput (refs a') = seen_jsonInput (watchers a') /\
  seen_yamlInput (watchers a') = seen_yamlInput (watchers a) /\
  seen_csvInput (watchers a') = seen_csvInput (watchers a) /\
  activeEditor (refs a') = activeEditor (refs a) /\
  (jsonInput (refs a) = seen_jsonInput (watchers a) -> a' = a) /\
  (activeEditor (refs a) <> ed_json -> refs a' = refs a).
Proof.
  unfold job_jsonInput.
  destruct (String.eqb_spec (jsonInput (refs a)) (seen_jsonInput (watchers a))) as [Hsame | Hnew];
    simpl.
  - repeat split; auto.
  - destruct (syncOutputs_writes E (refs a)) as (Hjson & Hactive & _).
    repeat split; auto.
    + contradiction.
    + intros Hother. unfold exec. now rewrite syncOutputs_other_editor.
Qed.

(** The job of [watch(yamlInput, ...)]. *)
Lemma job_yamlInput_after (a : App) :
  let a' := job_yamlInput E a in
  yamlInput (refs a') = seen_yamlInput (watchers a') /\
  csvInput (refs a') = csvInput (refs a) /\
  seen_jsonInput (watchers a') = seen_jsonInput (watchers a) /\
  seen_csvInput (watchers a') = seen_csvInput (watchers a) /\
  activeEditor (refs a') = activeEditor (refs a) /\
  (yamlInput (refs a) = seen_yamlInput (watchers a) -> a' = a) /\
  (activeEditor (refs a) <> ed_yaml -> refs a' = refs a).
Proof.
  unfold job_yamlInput.
  destruct (String.eqb_spec (yamlInput (refs a)) (seen_yamlInput (watchers a))) as [Hsame | Hnew];
    simpl.
  - repeat split; auto.
  - destruct (on_yamlInput_writes E (refs a)) as (Hyaml & Hcsv & Hactive).
    repeat split; auto.
    + contradiction.
    + intros Hother. now apply on_yamlInput_inactive.
Qed.

(** The job of [watch(csvInput, ...)]. *)
Lemma job_csvInput_after (a : App) :
  let a' := job_csvInput E a in
  csvInput (refs a') = seen_csvInput (watchers a') /\
  yamlInput (refs a') = yamlInput (refs a) /\
  seen_jsonInput (watchers a') = seen_jsonInput (watchers a) /\
  seen_yamlInput (watchers a') = seen_yamlInput (watchers a) /\
  activeEditor (refs a') = activeEditor (refs a) /\
  (csvInput (refs a) = seen_csvInput (watchers a) -> a' = a) /\
  (activeEditor (refs a) <> ed_csv -> refs a' = refs a).
Proof.
  unfold job_csvInput.
  destruct (String.eqb_spec (csvInput (refs a)) (seen_csvInput (watchers a))) as [Hsame | Hnew];
    simpl.
  - repeat split; auto.
  - destruct (on_csvInput_writes E (refs a)) as (Hyaml & Hcsv & Hactive).
    repeat split; auto.
    + contradiction.
    + intros Hother. now apply on_csvInput_inactive.
Qed.

(** After one round the two alternate watchers are up to date; the canonical
    one may lag, but only behind what an alternate editor's parse wrote. *)
Lemma run_jobs_first_round (a : App) :
  let a' := run_jobs E a in
  yamlInput (refs a') = seen_yamlInput (watchers a') /\
  csvInput (refs a') = seen_csvInput (watchers a') /\
  (jsonInput (refs a') = seen_jsonInput (watchers a') \/ activeEditor (refs a') <> ed_json).
Proof.
  unfold run_jobs.
  destruct (job_jsonInput_after a) as (Hj1 & _ & _ & Ha1 & _ & _).
  set (a1 := job_jsonInput E a) in *.
  destruct (job_yamlInput_after a1) as (Hy2 & _ & Hsj2 & _ & Ha2 & _ & Hid2).
  set (a2 := job_yamlInput E a1) in *.
  destruct (job_csvInput_after a2) as (Hc3 & Hy3 & Hsj3 & Hsy3 & Ha3 & _ & Hid3).
  set (a3 := job_csvInput E a2) in *.
  simpl. repeat split.
  - congruence.
  - exact Hc3.
  - destruct (activeEditor (refs a1)) eqn:Hactive.
    + left. rewrite Hid3, Hid2, Hsj3, Hsj2 by congruence. exact Hj1.
    + right. congruence.
    + right. congruence.
Qed.

Lemma run_jobs_second_round (a : App) :
  yamlInput (refs a) = seen_yamlInput (watchers a) ->
  csvInput (refs a) = seen_csvInput (watchers a) ->
  jsonInput (refs a) = seen_jsonInput (watchers a) \/ activeEditor (refs a) <> ed_json ->
  pending (run_jobs E a) = false.
Proof.
  intros Hy Hc Hj. unfold run_jobs.
  destruct (job_jsonInput_after a) as (Hj1 & Hsy1 & Hsc1 & _ & Hsame & Hother).
  set (a1 := job_jsonInput E a) in *.
  assert (Hrefs : refs a1 = refs a) by (destruct Hj as [Hj | Hj]; [now rewrite Hsame | auto]).
  assert (Hy1 : yamlInput (refs a1) = seen_yamlInput (watchers a1)) by congruence.
  assert (Hc1 : csvInput (refs a1) = seen_csvInput (watchers a1)) by congruence.
  destruct (job_yamlInput_after a1) as (_ & _ & _ & _ & _ & Hid2 & _).
  rewrite (Hid2 Hy1).
  destruct (job_csvInput_after a1) as (_ & _ & _ & _ & _ & Hid3 & _).
  rewrite (Hid3 Hc1).
  apply pending_false. auto.
Qed.

(** Two rounds settle every cascade: no watcher is left with a change it has
    not seen. *)
Lemma flushJobs_settles (n : nat) (a : App) :
  pending (flushJobs E (S (S n)) a) = false.
Proof.
  simpl. destruct (pending a) eqn:Ha; [| exact Ha].
  destruct (pending (run_jobs E a)) eqn:Ha1; [| exact Ha1].
  destruct (run_jobs_first_round a) as (Hy & Hc & Hj).
  rewrite flushJobs_at_rest; now apply run_jobs_second_round.
Qed.

Lemma dispatch_settles (ev : Event) (a : App) :
  pending (dispatch E ev a) = false.
Proof. unfold dispatch, recursion_limit. apply flushJobs_settles. Qed.

(** No job writes the ref of the active editor, or changes which one it is. *)
Lemma run_jobs_active_buffer (a : App) :
  let a' := run_jobs E a in
  activeEditor (refs a') = activeEditor (refs a) /\
  buffer (activeEditor (refs a)) (refs a') = buffer (activeEditor (refs a)) (refs a).
Proof.
  unfold run_jobs.
  destruct (job_jsonInput_after a) as (_ & _ & _ & Ha1 & _ & Hid1).
  set (a1 := job_jsonInput E a) in *.
  destruct (job_yamlInput_after a1) as (_ & _ & _ & _ & Ha2 & _ & Hid2).
  set (a2 := job_yamlInput E a1) in *.
  destruct (job_csvInput_after a2) as (_ & _ & _ & _ & Ha3 & _ & Hid3).
  set (a3 := job_csvInput E a2) in *.
  simpl. split; [congruence |].
  destruct (activeEditor (refs a)) eqn:Hactive.
  - (* json: only syncOutputs can run, and it keeps jsonInput *)
    rewrite Hid3, Hid2 by congruence.
    unfold a1, job_jsonInput.
    destruct (_ =? _)%string; simpl; [reflexivity |].
    now destruct (syncOutputs_writes E (refs a)) as (Hjson & _).
  - (* yaml: only parseInput.yaml can run, and it keeps yamlInput *)
    rewrite Hid3 by congruence.
    destruct (on_yamlInput_writes E (refs a1)) as (Hyaml & _).
    unfold a2, job_yamlInput.
    destruct (_ =? _)%string; simpl; rewrite ?Hyaml, Hid1; congruence.
  - (* csv *)
    destruct (on_csvInput_writes E (refs a2)) as (_ & Hcsv & _).
    unfold a3, job_csvInput.
    destruct (_ =? _)%string; simpl; rewrite ?Hcsv, Hid2, Hid1; congruence.
Qed.

Lemma flushJobs_active_buffer (n : nat) (a : App) :
  let a' := flushJobs E n a in
  activeEditor (refs a') = activeEditor (refs a) /\
  buffer (activeEditor (refs a)) (refs a') = buffer (activeEditor (refs a)) (refs a).
Proof.
  revert a. induction n as [| n IH]; intros a; simpl; [auto |].
  destruct (pending a); [| auto].
  destruct (IH (run_jobs E a)) as (Hactive & Hbuffer).
  destruct (run_jobs_active_buffer a) as (Hactive1 & Hbuffer1).
  split; [congruence |].
  rewrite <- Hactive1, Hbuffer, Hactive1. exact Hbuffer1.
Qed.

End Scheduler.

(** ** Cost calculator *)

Lemma truthy_string_false (text : string) :
  truthy_string text = false <-> text = EmptyString.
Proof. unfold truthy_string. rewrite negb_false_iff. apply String.eqb_eq. Qed.

Lemma truthy_string_true (text : string) :
  truthy_string text = true <-> text <> EmptyString.
Proof. unfold truthy_string. rewrite negb_true_iff. apply String.eqb_neq. Qed.

(** Step 11.a of toFixed, for a number with a fractional part: the chosen
    [n] has [n - 1/2 <= m * 2^e * 10^f < n + 1/2]. *)
Lemma nearest_scaled_is_nearest (m : positive) (e : Z) (f : nat) :
  e < 0 ->
  let d := 2 ^ (- e) in
  let q := Zpos m * 10 ^ Z.of_nat f in
  let n := nearest_scaled m e f in
  2 * d * n - d <= 2 * q < 2 * d * n + d.
Proof.
  intros He d q n. unfold n, nearest_scaled.
  destruct (Z.leb_spec 0 e) as [Hge | _]; [lia |].
  fold d q.
  assert (Hd : 0 < d) by (apply Z.pow_pos_nonneg; lia).
  pose proof (Z.div_mod (2 * q + d) (2 * d) ltac:(lia)) as Hdiv.
  pose proof (Z.mod_pos_bound (2 * q + d) (2 * d) ltac:(lia)) as Hmod.
  lia.
Qed.

(** ** Binary64 arithmetic on token counts

    What [Number_div], [Number_mul] and [Number_of_Z] compute on integers
    below [2^53]: each rounds to a mantissa of 53 digits, within half a unit
    of the last place. *)

(** The number of binary digits of a positive integer. *)
Lemma digits2_pos_bounds (p : positive) :
  2 ^ (Zpos (digits2_pos p) - 1) <= Zpos p < 2 ^ Zpos (digits2_pos p).
Proof.
  induction p as [p IH | p IH |]; cbn [digits2_pos].
  - rewrite Pos2Z.inj_succ, (Pos2Z.inj_xI p).
    replace (Z.succ (Zpos (digits2_pos p)) - 1) with (Z.succ (Zpos (digits2_pos p) - 1)) by lia.
    rewrite !Z.pow_succ_r by lia.
    generalize dependent (2 ^ (Zpos (digits2_pos p) - 1)).
    generalize (2 ^ Zpos (digits2_pos p)). lia.
  - rewrite Pos2Z.inj_succ, (Pos2Z.inj_xO p).
    replace (Z.succ (Zpos (digits2_pos p)) - 1) with (Z.succ (Zpos (digits2_pos p) - 1)) by lia.
    rewrite !Z.pow_succ_r by lia.
    generalize dependent (2 ^ (Zpos (digits2_pos p) - 1)).
    generalize (2 ^ Zpos (digits2_pos p)). lia.
  - simpl. lia.
Qed.

Lemma digits2_pos_unique (p : positive) (k : Z) :
  2 ^ (k - 1) <= Zpos p < 2 ^ k -> Zpos (digits2_pos p) = k.
Proof.
  intros Hk. pose proof (digits2_pos_bounds p) as Hd.
  assert (Hk0 : 0 < k).
  { destruct (Z.ltb_spec 0 k) as [H | H]; [exact H |].
    assert (2 ^ k <= 1).
    { destruct (Z.eqb_spec k 0) as [-> | Hne]; [simpl; lia |].
      rewrite Z.pow_neg_r by lia. lia. }
    lia. }
  destruct (Z.lt_trichotomy (Zpos (digits2_pos p)) k) as [Hlt | [Heq | Hgt]];
    [| exact Heq |].
  - assert (2 ^ Zpos (digits2_pos p) <= 2 ^ (k - 1)) by (apply Z.pow_le_mono_r; lia). lia.
  - assert (2 ^ k <= 2 ^ (Zpos (digits2_pos p) - 1)) by (apply Z.pow_le_mono_r; lia). lia.
Qed.

Lemma shr_1_located (X S : Z) (mrs : shr_record) :
  0 < S -> 0 <= shr_m mrs ->
  located X (shr_m mrs) S (shr_r mrs) (shr_s mrs) ->
  located X (shr_m (shr_1 mrs)) (2 * S) (shr_r (shr_1 mrs)) (shr_s (shr_1 mrs)) /\
  shr_m (shr_1 mrs) = shr_m mrs / 2.
Proof.
  intros HS Hm. destruct mrs as [m r s]. cbn [shr_m shr_r shr_s] in *.
  unfold located.
  destruct m as [| [p | p |] | p]; try lia; cbn [shr_1 shr_m shr_r shr_s];
    rewrite ?(Pos2Z.inj_xI p), ?(Pos2Z.inj_xO p).
  - intros (Hrange & Hloc). split.
    + destruct r, s; cbn [orb]; nia.
    + reflexivity.
  - intros (Hrange & Hloc). split.
    + destruct r, s; cbn [orb]; nia.
    + apply Z.div_unique with (r := 1); lia.
  - intros (Hrange & Hloc). split.
    + destruct r, s; cbn [orb]; nia.
    + apply Z.div_unique with (r := 0); lia.
  - intros (Hrange & Hloc). split.
    + destruct r, s; cbn [orb]; nia.
    + reflexivity.
Qed.

Lemma iter_pos_nat {A : Type} (f : A -> A) (p : positive) (x : A) :
  iter_pos f p x = Nat.iter (Pos.to_nat p) f x.
Proof.
  revert x. induction p as [p IH | p IH |]; intros x; cbn [iter_pos].
  - rewrite !IH, Pos2Nat.inj_xI. cbn [Nat.iter Nat.mul].
    rewrite Nat.add_0_r, <- Nat.iter_add. 
    change (f (Nat.iter (Pos.to_nat p + Pos.to_nat p) f x))
      with (Nat.iter (S (Pos.to_nat p + Pos.to_nat p)) f x).
    now rewrite Nat.iter_succ_r.
  - rewrite !IH, Pos2Nat.inj_xO. cbn [Nat.mul].
    now rewrite Nat.add_0_r, <- Nat.iter_add.
  - reflexivity.
Qed.

Lemma shr_iter_located (X S : Z) (k : nat) (mrs : shr_record) :
  0 < S -> 0 <= shr_m mrs ->
  located X (shr_m mrs) S (shr_r mrs) (shr_s mrs) ->
  let mrs' := Nat.iter k shr_1 mrs in
  located X (shr_m mrs') (2 ^ Z.of_nat k * S) (shr_r mrs') (shr_s mrs') /\
  shr_m mrs' = shr_m mrs / 2 ^ Z.of_nat k.
Proof.
  intros HS Hm Hloc. induction k as [| k IH].
  - cbn [Nat.iter]. change (2 ^ Z.of_nat 0) with 1. rewrite Z.div_1_r, Z.mul_1_l. auto.
  - cbn zeta in *. rewrite Nat.iter_succ. destruct IH as (IHloc & IHm).
    assert (Hpow : 0 < 2 ^ Z.of_nat k) by (apply Z.pow_pos_nonneg; lia).
    assert (Hm' : 0 <= shr_m (Nat.iter k shr_1 mrs))
      by (rewrite IHm; apply Z.div_pos; lia).
    destruct (shr_1_located X (2 ^ Z.of_nat k * S) (Nat.iter k shr_1 mrs)
                ltac:(lia) Hm' IHloc) as (Hloc1 & Hm1).
    rewrite Nat2Z.inj_succ, Z.pow_succ_r by lia. split.
    + replace (2 * 2 ^ Z.of_nat k * S) with (2 * (2 ^ Z.of_nat k * S)) by lia.
      exact Hloc1.
    + rewrite Hm1, IHm, Z.div_div by lia. f_equal. lia.
Qed.

(** Rounding to nearest, ties to even, stays within half a step. *)
Lemma round_nearest_even_located (X M S : Z) (r s : bool) :
  0 < S ->
  located X M S r s ->
  let R := round_nearest_even M
             (loc_of_shr_record {| shr_m := M; shr_r := r; shr_s := s |}) in
  (R = M \/ R = M + 1) /\ 2 * Z.abs (X - R * S) <= S.
Proof.
  intros HS (Hrange & Hloc).
  rewrite Z.mul_add_distr_r, Z.mul_1_l in Hrange.
  destruct r, s; cbn [loc_of_shr_record round_nearest_even shr_m shr_r shr_s].
  - split; [right; reflexivity |]. rewrite Z.mul_add_distr_r, Z.mul_1_l. lia.
  - destruct (Z.even M); (split; [auto |]); rewrite ?Z.mul_add_distr_r, ?Z.mul_1_l; lia.
  - split; [left; reflexivity | lia].
  - split; [left; reflexivity | lia].
Qed.

Lemma shr_nat (mrs : shr_record) (e n : Z) :
  0 <= n -> shr mrs e n = (Nat.iter (Z.to_nat n) shr_1 mrs, e + n).
Proof.
  intros Hn. destruct n as [| k | k]; [| | lia].
  - cbn. now rewrite Z.add_0_r.
  - cbn [shr]. now rewrite iter_pos_nat.
Qed.

Lemma fexp_normal (e : Z) : -1021 <= e -> fexp prec emax e = e - 53.
Proof. intros He. unfold fexp, emin, prec, emax. lia. Qed.

(** The common end of every operation: a positive quantity [X], given as a
    mantissa of [53 + n] digits with the place of [X] above it, is rounded
    to a mantissa of 53 digits within half a unit of its last place. *)
Lemma binary_round_aux_located (sx : bool) (p : positive) (ex n X S : Z)
      (lx : location) :
  0 < S -> 0 <= n ->
  2 ^ (52 + n) <= Zpos p < 2 ^ (53 + n) ->
  -1074 <= ex + n -> ex + n + 1 <= 971 ->
  located X (Zpos p) S (shr_r (shr_record_of_loc (Zpos p) lx))
          (shr_s (shr_record_of_loc (Zpos p) lx)) ->
  exists (m : positive) (e : Z),
    binary_round_aux prec emax sx (Zpos p) ex lx = S754_finite sx m e /\
    2 ^ 52 <= Zpos m < 2 ^ 53 /\
    ex + n <= e <= ex + n + 1 /\
    2 * Z.abs (X - Zpos m * (2 ^ (e - ex) * S)) <= 2 ^ (e - ex) * S.
Proof.
  intros HS Hn Hp Hlow Hhigh Hloc.
  assert (Hdigits : Zpos (digits2_pos p) = 53 + n)
    by (apply digits2_pos_unique; replace (53 + n - 1) with (52 + n) by lia; exact Hp).
  assert (Hpow : 0 < 2 ^ n) by (apply Z.pow_pos_nonneg; lia).
  assert (Hsplit52 : 2 ^ (52 + n) = 2 ^ 52 * 2 ^ n) by (apply Z.pow_add_r; lia).
  assert (Hsplit53 : 2 ^ (53 + n) = 2 ^ 53 * 2 ^ n) by (apply Z.pow_add_r; lia).
  unfold binary_round_aux, shr_fexp.
  cbn [Zdigits2]. rewrite Hdigits, fexp_normal by lia.
  replace (53 + n + ex - 53 - ex) with n by lia.
  rewrite shr_nat by exact Hn.
  assert (Hm0 : shr_m (shr_record_of_loc (Zpos p) lx) = Zpos p)
    by (destruct lx as [| []]; reflexivity).
  rewrite <- Hm0 in Hloc at 1.
  destruct (shr_iter_located X S (Z.to_nat n) (shr_record_of_loc (Zpos p) lx) HS
              ltac:(rewrite Hm0; lia) Hloc) as (Hloc1 & HM1).
  rewrite Z2Nat.id in Hloc1, HM1 by exact Hn. rewrite Hm0 in HM1.
  destruct (Nat.iter (Z.to_nat n) shr_1 (shr_record_of_loc (Zpos p) lx))
    as [M1 r1 s1].
  cbn [shr_m shr_r shr_s] in Hloc1, HM1.
  assert (HM1range : 2 ^ 52 <= M1 < 2 ^ 53).
  { rewrite HM1. split.
    - apply Z.div_le_lower_bound; lia.
    - apply Z.div_lt_upper_bound; lia. }
  destruct (round_nearest_even_located X M1 (2 ^ n * S) r1 s1 ltac:(lia) Hloc1)
    as (HR & Hnear).
  cbn [shr_m].
  set (R := round_nearest_even M1
              (loc_of_shr_record {| shr_m := M1; shr_r := r1; shr_s := s1 |})) in *.
  destruct (Z.ltb_spec R (2 ^ 53)) as [Hsmall | Hcarry].
  - destruct R as [| q | q] eqn:HRq; [lia | | lia].
    assert (Hq : Zpos (digits2_pos q) = 53) by (apply digits2_pos_unique; lia).
    cbn [Zdigits2]. rewrite Hq, fexp_normal by lia.
    replace (53 + (ex + n) - 53 - (ex + n)) with 0 by lia.
    cbn [shr shr_record_of_loc shr_m].
    destruct (Z.leb_spec (ex + n) (emax - prec)) as [_ | Hover];
      [| unfold emax, prec in Hover; lia].
    exists q, (ex + n). split; [reflexivity |]. split; [lia |]. split; [lia |].
    replace (ex + n - ex) with n by lia. exact Hnear.
  - assert (HR53 : R = 2 ^ 53) by lia.
    rewrite HR53 in *. change (2 ^ 53) with 9007199254740992 at 1 2.
    cbn [Zdigits2 digits2_pos Pos.succ]. rewrite fexp_normal by lia.
    replace (54 + (ex + n) - 53 - (ex + n)) with 1 by lia.
    cbn [shr shr_record_of_loc shr_m iter_pos shr_1].
    destruct (Z.leb_spec (ex + n + 1) (emax - prec)) as [_ | Hover];
      [| unfold emax, prec in Hover; lia].
    exists 4503599627370496%positive, (ex + n + 1).
    split; [reflexivity |]. split; [lia |]. split; [lia |].
    replace (ex + n + 1 - ex) with (Z.succ n) by lia.
    rewrite Z.pow_succ_r by exact Hn.
    change (2 ^ 53) with (2 * 4503599627370496) in Hnear. lia.
Qed.

(** A mantissa of 53 digits needs no rounding. *)
Lemma binary_round_aux_exact (sx : bool) (p : positive) (ex : Z) :
  2 ^ 52 <= Zpos p < 2 ^ 53 ->
  -1074 <= ex <= 971 ->
  binary_round_aux prec emax sx (Zpos p) ex loc_Exact = S754_finite sx p ex.
Proof.
  intros Hp Hex.
  assert (Hdigits : Zpos (digits2_pos p) = 53) by (apply digits2_pos_unique; lia).
  unfold binary_round_aux, shr_fexp.
  cbn [Zdigits2]. rewrite Hdigits, fexp_normal by lia.
  replace (53 + ex - 53 - ex) with 0 by lia.
  cbn [shr shr_record_of_loc shr_m loc_of_shr_record round_nearest_even Zdigits2].
  rewrite Hdigits, fexp_normal by lia.
  replace (53 + ex - 53 - ex) with 0 by lia.
  cbn [shr shr_m].
  destruct (Z.leb_spec ex (emax - prec)) as [_ | Hover];
    [reflexivity | unfold emax, prec in Hover; lia].
Qed.

Lemma Pos_iter_xO (p k : positive) : Zpos (Pos.iter xO p k) = Zpos p * 2 ^ Zpos k.
Proof.
  induction k as [| k IH] using Pos.peano_ind.
  - cbn [Pos.iter]. rewrite (Pos2Z.inj_xO p). change (2 ^ 1) with 2. lia.
  - rewrite Pos.iter_succ, (Pos2Z.inj_xO (Pos.iter xO p k)), IH, Pos2Z.inj_succ,
      Z.pow_succ_r by lia.
    lia.
Qed.

(** A non-zero integer below [2^53] in magnitude is a number, exactly. *)
Lemma Number_of_Z_finite (z : Z) :
  z <> 0 -> Z.abs z < 2 ^ 53 ->
  exists (m : positive) (e : Z),
    Number_of_Z z = S754_finite (z <? 0) m e /\
    2 ^ 52 <= Zpos m < 2 ^ 53 /\
    -52 <= e <= 0 /\
    Zpos m = Z.abs z * 2 ^ (- e).
Proof.
  intros Hz Hsmall.
  assert (Hshape : exists (sx : bool) (p : positive),
             Number_of_Z z = binary_round prec emax sx p 0 /\
             sx = (z <? 0) /\ Z.abs z = Zpos p)
    by (destruct z as [| p | p]; [lia | exists false, p | exists true, p]; auto).
  destruct Hshape as (sx & p & -> & -> & Habs). rewrite Habs in *.
  pose proof (digits2_pos_bounds p) as Hd.
  set (d := Zpos (digits2_pos p)) in *.
  assert (Hd53 : 1 <= d <= 53).
  { split; [unfold d; lia |].
    destruct (Z.leb_spec d 53) as [H | H]; [exact H |].
    assert (2 ^ 53 <= 2 ^ (d - 1)) by (apply Z.pow_le_mono_r; lia). lia. }
  unfold binary_round. fold d. rewrite fexp_normal by lia.
  unfold shl_align.
  destruct (d + 0 - 53 - 0) as [| k | k] eqn:Hshift; [| lia |].
  - assert (Hd' : d = 53) by lia. rewrite Hd' in Hd.
    rewrite binary_round_aux_exact by (change (53 - 1) with 52 in Hd; lia).
    exists p, 0. repeat split; try lia; change (2 ^ (- 0)) with 1; lia.
  - assert (Hk : Zpos k = 53 - d) by lia.
    assert (Hk0 : 0 <= 53 - d) by lia.
    assert (Hmz : Zpos (Pos.iter xO p k) = Zpos p * 2 ^ (53 - d))
      by (rewrite Pos_iter_xO, Hk; reflexivity).
    assert (Hpow : 0 < 2 ^ (53 - d)) by (apply Z.pow_pos_nonneg; lia).
    assert (H52 : 2 ^ 52 = 2 ^ (d - 1) * 2 ^ (53 - d))
      by (rewrite <- Z.pow_add_r by lia; f_equal; lia).
    assert (H53 : 2 ^ 53 = 2 ^ d * 2 ^ (53 - d))
      by (rewrite <- Z.pow_add_r by lia; f_equal; lia).
    rewrite binary_round_aux_exact by (rewrite ?Hmz; (lia || nia)).
    exists (Pos.iter xO p k), (d + 0 - 53). repeat split; try lia; try nia;
      rewrite Hmz; f_equal; f_equal; lia.
Qed.

(** The remainder of a division places the quotient. *)
Lemma new_location_located (m2 q r X : Z) :
  0 < m2 -> 0 <= r < m2 -> X = m2 * q + r ->
  located X q m2 (shr_r (shr_record_of_loc q (new_location m2 r)))
          (shr_s (shr_record_of_loc q (new_location m2 r))).
Proof.
  intros Hm2 Hr ->. unfold located, new_location.
  split; [lia |].
  replace (m2 * q + r - q * m2) with r by lia.
  destruct (Z.even m2) eqn:Heven; unfold new_location_even, new_location_odd;
    destruct (Z.eqb_spec r 0) as [-> | Hr0];
    cbn [shr_record_of_loc shr_r shr_s]; try lia.
  - destruct (2 * r ?= m2) eqn:Hcmp; cbn [shr_record_of_loc shr_r shr_s].
    + apply Z.compare_eq_iff in Hcmp. lia.
    + change (2 * r < m2) in Hcmp. lia.
    + change (2 * r > m2) in Hcmp. lia.
  - rewrite <- Z.negb_odd in Heven. apply negb_false_iff, Z.odd_spec in Heven.
    destruct Heven as (h & Hodd).
    destruct (2 * r + 1 ?= m2) eqn:Hcmp; cbn [shr_record_of_loc shr_r shr_s].
    + apply Z.compare_eq_iff in Hcmp. lia.
    + change (2 * r + 1 < m2) in Hcmp. lia.
    + change (2 * r + 1 > m2) in Hcmp. lia.
Qed.

(** The quotient of two numbers with full mantissas. *)
Lemma Number_div_located (s1 s2 : bool) (m1 m2 : positive) (e1 e2 : Z) :
  2 ^ 52 <= Zpos m1 < 2 ^ 53 -> 2 ^ 52 <= Zpos m2 < 2 ^ 53 ->
  -52 <= e1 <= 0 -> -52 <= e2 <= 0 ->
  exists (m : positive) (e : Z),
    Number_div (S754_finite s1 m1 e1) (S754_finite s2 m2 e2)
    = S754_finite (xorb s1 s2) m e /\
    2 ^ 52 <= Zpos m < 2 ^ 53 /\
    e1 - e2 - 53 <= e <= e1 - e2 - 51 /\
    2 * Z.abs (Zpos m1 * 2 ^ 53 - Zpos m * (2 ^ (e - (e1 - e2 - 53)) * Zpos m2))
    <= 2 ^ (e - (e1 - e2 - 53)) * Zpos m2.
Proof.
  intros Hm1 Hm2 He1 He2.
  assert (Hd1 : Zpos (digits2_pos m1) = 53) by (apply digits2_pos_unique; lia).
  assert (Hd2 : Zpos (digits2_pos m2) = 53) by (apply digits2_pos_unique; lia).
  unfold Number_div, SFdiv, SFdiv_core_binary. cbn [Zdigits2].
  rewrite Hd1, Hd2, fexp_normal by lia.
  replace (53 + e1 - (53 + e2) - 53) with (e1 - e2 - 53) by lia.
  rewrite Z.min_l by lia.
  replace (e1 - e2 - (e1 - e2 - 53)) with 53 by lia.
  rewrite Z.shiftl_mul_pow2 by lia.
  pose proof (Z_div_mod (Zpos m1 * 2 ^ 53) (Zpos m2) ltac:(lia)) as Hdiv.
  destruct (Z.div_eucl (Zpos m1 * 2 ^ 53) (Zpos m2)) as [q r].
  destruct Hdiv as (Hqr & Hr).
  assert (Hq : 2 ^ 52 <= q < 2 ^ 54).
  { change (2 ^ 54) with (2 * 2 ^ 53). change (2 ^ 53) with (2 * 2 ^ 52) in *.
    generalize dependent (2 ^ 52). intros t **. nia. }
  destruct q as [| q | q]; [lia | | lia].
  pose proof (new_location_located (Zpos m2) (Zpos q) r (Zpos m1 * 2 ^ 53)
                ltac:(lia) Hr Hqr) as Hloc.
  destruct (Z.ltb_spec (Zpos q) (2 ^ 53)) as [Hsmall | Hlarge].
  - destruct (binary_round_aux_located (xorb s1 s2) q (e1 - e2 - 53) 0
                (Zpos m1 * 2 ^ 53) (Zpos m2) (new_location (Zpos m2) r))
      as (m & e & Hround & Hm & He & Hnear); try lia; [exact Hloc |].
    exists m, e. split; [exact Hround |]. split; [exact Hm |]. split; [lia | exact Hnear].
  - destruct (binary_round_aux_located (xorb s1 s2) q (e1 - e2 - 53) 1
                (Zpos m1 * 2 ^ 53) (Zpos m2) (new_location (Zpos m2) r))
      as (m & e & Hround & Hm & He & Hnear); try lia; [exact Hloc |].
    exists m, e. split; [exact Hround |]. split; [exact Hm |]. split; [lia | exact Hnear].
Qed.

(** ** Decimal numerals *)

Lemma append_associative (a b c : string) : (a ++ b) ++ c = a ++ (b ++ c).
Proof. induction a as [| ch a IH]; simpl; [reflexivity | now rewrite IH]. Qed.

Lemma string_of_revapp (d d' : Decimal.uint) :
  NilEmpty.string_of_uint (Decimal.revapp d d')
  = NilEmpty.string_of_uint (Decimal.rev d) ++ NilEmpty.string_of_uint d'.
Proof.
  revert d'. unfold Decimal.rev.
  induction d as [| d IH | d IH | d IH | d IH | d IH | d IH | d IH | d IH | d IH | d IH];
    intros d'; cbn [Decimal.revapp]; [reflexivity | ..];
    rewrite (IH (_ d')), (IH (_ Decimal.Nil)), append_associative; reflexivity.
Qed.

Lemma to_lu_add (n : N) (k : nat) :
  DecimalPos.Unsigned.to_lu (n + N.of_nat k)
  = Nat.iter k Decimal.Little.succ (DecimalPos.Unsigned.to_lu n).
Proof.
  induction k as [| k IH].
  - now rewrite N.add_0_r.
  - rewrite Nat2N.inj_succ, N.add_succ_r, DecimalPos.Unsigned.to_lu_succ, IH.
    reflexivity.
Qed.

(** The last digit of a numeral comes first in its little-endian form. *)
Lemma to_lu_digit (a : positive) (c : N) :
  (c < 10)%N ->
  DecimalPos.Unsigned.to_lu (10 * Npos a + c)
  = match c with
    | 0 => Decimal.D0 | 1 => Decimal.D1 | 2 => Decimal.D2 | 3 => Decimal.D3
    | 4 => Decimal.D4 | 5 => Decimal.D5 | 6 => Decimal.D6 | 7 => Decimal.D7
    | 8 => Decimal.D8 | _ => Decimal.D9
    end%N (DecimalPos.Unsigned.to_lu (Npos a)).
Proof.
  intros Hc.
  assert (Hcases : (c = 0 \/ c = 1 \/ c = 2 \/ c = 3 \/ c = 4 \/ c = 5 \/ c = 6 \/ c = 7
                    \/ c = 8 \/ c = 9)%N) by lia.
  rewrite <- (N2Nat.id c) at 1.
  rewrite to_lu_add, (DecimalPos.Unsigned.to_ldec_tenfold a).
  repeat destruct Hcases as [-> | Hcases]; [.. | subst c]; reflexivity.
Qed.

Lemma decimal_snoc (a : positive) (c : N) :
  (c < 10)%N ->
  NilEmpty.string_of_uint (N.to_uint (10 * Npos a + c))
  = NilEmpty.string_of_uint (N.to_uint (Npos a))
    ++ NilEmpty.string_of_uint (N.to_uint c).
Proof.
  intros Hc. pose proof (to_lu_digit a c Hc) as Hlu.
  destruct (10 * Npos a + c)%N as [| q] eqn:Hq; [lia |].
  cbn [N.to_uint]. unfold Pos.to_uint.
  change (Pos.to_little_uint q) with (DecimalPos.Unsigned.to_lu (Npos q)). rewrite Hlu.
  change (DecimalPos.Unsigned.to_lu (Npos a)) with (Pos.to_little_uint a).
  assert (Hcases : (c = 0 \/ c = 1 \/ c = 2 \/ c = 3 \/ c = 4 \/ c = 5 \/ c = 6 \/ c = 7
                    \/ c = 8 \/ c = 9)%N) by lia.
  repeat destruct Hcases as [-> | Hcases]; [.. | subst c];
    unfold Decimal.rev at 1; cbn [Decimal.revapp]; rewrite string_of_revapp; reflexivity.
Qed.

Lemma length_of_append (a b : string) :
  String.length (a ++ b) = (String.length a + String.length b)%nat.
Proof. induction a as [| ch a IH]; simpl; [reflexivity | now rewrite IH]. Qed.

Lemma substring_prefix (a b : string) : substring 0 (String.length a) (a ++ b) = a.
Proof.
  induction a as [| ch a IH]; simpl; [now destruct b | now rewrite IH].
Qed.

Lemma substring_suffix (a b : string) :
  substring (String.length a) (String.length b) (a ++ b) = b.
Proof.
  induction a as [| ch a IH]; simpl; [| exact IH].
  induction b as [| ch b IHb]; simpl; [reflexivity | now rewrite IHb].
Qed.

(** With one digit after the point, [fixed_notation] writes the tenths as the
    reference does. *)
Lemma fixed_notation_one_decimal (t : Z) : 0 <= t -> fixed_notation t 1 = one_decimal t.
Proof.
  intros Ht. unfold fixed_notation, one_decimal, decimal.
  destruct (Z.ltb_spec t 10) as [Hsmall | Hlarge].
  - assert (Hcases : t = 0 \/ t = 1 \/ t = 2 \/ t = 3 \/ t = 4 \/ t = 5 \/ t = 6 \/ t = 7
                     \/ t = 8 \/ t = 9) by lia.
    repeat destruct Hcases as [-> | Hcases]; [.. | subst t]; reflexivity.
  - pose proof (Z.div_mod t 10 ltac:(lia)) as Hdm.
    pose proof (Z.mod_pos_bound t 10 ltac:(lia)) as Hmod.
    assert (Hq : 0 < t / 10) by (apply Z.div_str_pos; lia).
    destruct (Z.to_N (t / 10)) as [| a] eqn:Ha; [lia |].
    assert (Hsplit : Z.to_N t = (10 * Npos a + Z.to_N (t mod 10))%N) by lia.
    rewrite Hsplit, decimal_snoc by lia.
    set (A := NilEmpty.string_of_uint (N.to_uint (Npos a))).
    set (c := NilEmpty.string_of_uint (N.to_uint (Z.to_N (t mod 10)))).
    assert (Hc : String.length c = 1%nat).
    { unfold c.
      assert (Hcases : t mod 10 = 0 \/ t mod 10 = 1 \/ t mod 10 = 2 \/ t mod 10 = 3
                       \/ t mod 10 = 4 \/ t mod 10 = 5 \/ t mod 10 = 6 \/ t mod 10 = 7
                       \/ t mod 10 = 8 \/ t mod 10 = 9) by lia.
      repeat destruct Hcases as [-> | Hcases]; [.. | rewrite Hcases]; reflexivity. }
    assert (HA : (1 <= String.length A)%nat).
    { unfold A. cbn [N.to_uint].
      pose proof (DecimalPos.Unsigned.to_uint_nonnil a) as Hnil.
      destruct (Pos.to_uint a); [contradiction | ..]; simpl; lia. }
    cbv zeta. rewrite length_of_append, Hc.
    destruct (Nat.leb_spec (String.length A + 1) 1) as [Hle | _]; [lia |].
    rewrite length_of_append, Hc.
    replace (String.length A + 1 - 1)%nat with (String.length A) by lia.
    rewrite substring_prefix. rewrite <- Hc at 1. rewrite substring_suffix.
    reflexivity.
Qed.

(** ** The percentage of a saving *)

Lemma Number_of_Z_100 : Number_of_Z 100 = S754_finite false 7036874417766400 (-46).
Proof. reflexivity. Qed.

(** A hundred times a number with a full mantissa. *)
Lemma Number_mul_100_located (s : bool) (m : positive) (e : Z) :
  2 ^ 52 <= Zpos m < 2 ^ 53 ->
  -200 <= e <= 0 ->
  exists (m' : positive) (e' : Z),
    Number_mul (S754_finite s m e) (Number_of_Z 100) = S754_finite s m' e' /\
    2 ^ 52 <= Zpos m' < 2 ^ 53 /\
    e + 6 <= e' <= e + 8 /\
    2 * Z.abs (Zpos m * (100 * 2 ^ 46) - Zpos m' * 2 ^ (e' - (e - 46)))
    <= 2 ^ (e' - (e - 46)).
Proof.
  intros Hm He. rewrite Number_of_Z_100. unfold Number_mul, SFmul.
  rewrite xorb_false_r.
  set (p := (m * 7036874417766400)%positive).
  assert (Hp : Zpos p = Zpos m * (100 * 2 ^ 46)) by (unfold p; rewrite Pos2Z.inj_mul; reflexivity).
  assert (Hrange : 2 ^ 104 <= Zpos p < 2 ^ 106).
  { rewrite Hp. change (2 ^ 104) with (2 ^ 52 * 2 ^ 52).
    change (2 ^ 106) with (2 ^ 53 * 2 ^ 53).
    change (100 * 2 ^ 46) with 7036874417766400.
    change (2 ^ 52) with 4503599627370496 in *.
    change (2 ^ 53) with 9007199254740992 in *. lia. }
  assert (Hloc : located (Zpos p) (Zpos p) 1
                   (shr_r (shr_record_of_loc (Zpos p) loc_Exact))
                   (shr_s (shr_record_of_loc (Zpos p) loc_Exact)))
    by (unfold located; cbn [shr_record_of_loc shr_r shr_s]; lia).
  replace (e + -46) with (e - 46) by lia.
  destruct (Z.ltb_spec (Zpos p) (2 ^ 105)) as [Hsmall | Hlarge].
  - destruct (binary_round_aux_located s p (e - 46) 52 (Zpos p) 1 loc_Exact)
      as (m' & e' & Hround & Hm' & He' & Hnear); try lia; [exact Hloc |].
    exists m', e'. split; [exact Hround |]. split; [exact Hm' |]. split; [lia |].
    rewrite <- Hp. rewrite Z.mul_1_r in Hnear. exact Hnear.
  - destruct (binary_round_aux_located s p (e - 46) 53 (Zpos p) 1 loc_Exact)
      as (m' & e' & Hround & Hm' & He' & Hnear); try lia; [exact Hloc |].
    exists m', e'. split; [exact Hround |]. split; [exact Hm' |]. split; [lia |].
    rewrite <- Hp. rewrite Z.mul_1_r in Hnear. exact Hnear.
Qed.

Lemma abs_scale (x y k : Z) : 0 < k -> 2 * Z.abs (x * k) <= y * k -> 2 * Z.abs x <= y.
Proof.
  intros Hk. rewrite Z.abs_mul, (Z.abs_eq k) by lia. intros H.
  apply (Z.mul_le_mono_pos_r _ _ k Hk). lia.
Qed.

Lemma abs_mul_bound (k x y : Z) : 0 <= k -> Z.abs x <= y -> Z.abs (k * x) <= k * y.
Proof.
  intros Hk Hx. rewrite Z.abs_mul, (Z.abs_eq k) by lia.
  now apply Z.mul_le_mono_nonneg_l.
Qed.

(** Three roundings in a row stay within the nearest tenth: the quotient to
    53 bits, its hundredfold to 53 bits, and the tenths to an integer. *)
Lemma nearest_tenth_arith (D b mq Vq mr W t : Z) :
  0 < D < 2 ^ 32 -> 0 < b < 2 ^ 32 ->
  2 ^ 52 <= mq < 2 ^ 53 -> 2 ^ 52 <= mr < 2 ^ 53 ->
  0 < Vq -> 0 < W ->
  2 * Z.abs (D * Vq - mq * b) <= b ->
  2 * Z.abs (100 * mq * W - mr * Vq) <= Vq ->
  W * (2 * t - 1) <= 20 * mr < W * (2 * t + 1) ->
  2 * Z.abs (t * b - 1000 * D) <= b.
Proof.
  change (2 ^ 32) with 4294967296. change (2 ^ 52) with 4503599627370496.
  change (2 ^ 53) with 9007199254740992.
  intros HD Hb Hmq Hmr HVq HW H1 H2 H3.
  set (a := D * Vq - mq * b) in *.
  set (c := 100 * mq * W - mr * Vq) in *.
  set (g := 20 * mr - 2 * t * W).
  assert (Hg : Z.abs g <= W).
  { unfold g. rewrite !Z.mul_add_distr_l, ?Z.mul_sub_distr_l, !Z.mul_1_r in H3.
    replace (W * (2 * t)) with (2 * t * W) in H3 by ring. lia. }
  (* the unit of the quotient is small against the base *)
  assert (HVq_large : 524288 * b < Vq).
  { assert (Ha : 2 * (mq * b) - b <= 2 * (D * Vq)) by (unfold a in H1; lia).
    assert (Hmqb : 4503599627370496 * b <= mq * b)
      by (apply Z.mul_le_mono_nonneg_r; lia).
    assert (HDV : D * Vq <= 4294967295 * Vq)
      by (apply Z.mul_le_mono_nonneg_r; lia).
    lia. }
  (* and so is the unit of its hundredfold *)
  assert (HW_large : 20 * b < W).
  { assert (Hc : 2 * (mr * Vq) - Vq <= 200 * (mq * W)) by (unfold c in H2; lia).
    assert (HmrV : 4503599627370496 * Vq <= mr * Vq)
      by (apply Z.mul_le_mono_nonneg_r; lia).
    assert (HmqW : mq * W <= 9007199254740991 * W)
      by (apply Z.mul_le_mono_nonneg_r; lia).
    lia. }
  assert (Hidentity : 2 * (W * Vq) * (t * b - 1000 * D)
                      = - (1000 * W * (2 * a)) - 10 * b * (2 * c) - b * Vq * g)
    by (unfold a, c, g; ring).
  assert (E1 : Z.abs (1000 * W * (2 * a)) <= 1000 * W * b)
    by (apply abs_mul_bound; [lia |]; rewrite Z.abs_mul; simpl (Z.abs 2); exact H1).
  assert (E2 : Z.abs (10 * b * (2 * c)) <= 10 * b * Vq)
    by (apply abs_mul_bound; [lia |]; rewrite Z.abs_mul; simpl (Z.abs 2); exact H2).
  assert (E3 : Z.abs (b * Vq * g) <= b * Vq * W)
    by (apply abs_mul_bound; [apply Z.mul_nonneg_nonneg; lia | exact Hg]).
  assert (HWV : 0 < W * Vq) by (apply Z.mul_pos_pos; lia).
  assert (Hsum : 2 * (W * Vq) * Z.abs (t * b - 1000 * D)
                 <= 1000 * W * b + 10 * b * Vq + b * Vq * W).
  { rewrite <- (Z.abs_eq (2 * (W * Vq))) at 1 by lia.
    rewrite <- Z.abs_mul, Hidentity.
    generalize dependent (1000 * W * (2 * a)).
    generalize dependent (10 * b * (2 * c)).
    generalize dependent (b * Vq * g).
    intros; lia. }
  assert (H10 : 20 * b * Vq < W * Vq)
    by (apply Z.mul_lt_mono_pos_r; lia).
  assert (H1000 : 2000 * b * W <= Vq * W)
    by (apply Z.mul_le_mono_nonneg_r; lia).
  destruct (Z.leb_spec (2 * Z.abs (t * b - 1000 * D)) b) as [Hok | Hbad]; [exact Hok |].
  exfalso.
  assert (Hlow : (W * Vq) * (b + 1) <= (W * Vq) * (2 * Z.abs (t * b - 1000 * D)))
    by (apply Z.mul_le_mono_nonneg_l; lia).
  assert (HbW : 0 < b * W) by (apply Z.mul_pos_pos; lia).
  assert (HbV : 0 < b * Vq) by (apply Z.mul_pos_pos; lia).
  replace (1000 * W * b) with (1000 * (b * W)) in Hsum by ring.
  replace (10 * b * Vq) with (10 * (b * Vq)) in Hsum by ring.
  replace (b * Vq * W) with (b * (W * Vq)) in Hsum by ring.
  replace (20 * b * Vq) with (20 * (b * Vq)) in H10 by ring.
  replace (2000 * b * W) with (2000 * (b * W)) in H1000 by ring.
  replace (Vq * W) with (W * Vq) in H1000 by ring.
  replace (W * Vq * (b + 1)) with (b * (W * Vq) + W * Vq) in Hlow by ring.
  replace (W * Vq * (2 * Z.abs (t * b - 1000 * D)))
    with (2 * (W * Vq) * Z.abs (t * b - 1000 * D)) in Hlow by ring.
  generalize dependent (2 * (W * Vq) * Z.abs (t * b - 1000 * D)).
  generalize dependent (b * (W * Vq)).
  generalize dependent (W * Vq). generalize dependent (b * W).
  generalize dependent (b * Vq). intros. lia.
Qed.

Lemma pow2_product (x y : Z) : 0 <= x -> 0 <= y -> 2 ^ x * 2 ^ y = 2 ^ (x + y).
Proof. intros Hx Hy. symmetry. now apply Z.pow_add_r. Qed.

(** A count below [2^32] leaves at least 21 low bits of its mantissa empty. *)
Lemma small_count_exponent (z e : Z) (m : positive) :
  0 < z < 2 ^ 32 -> -52 <= e <= 0 -> 2 ^ 52 <= Zpos m -> Zpos m = z * 2 ^ (- e) ->
  e <= -21.
Proof.
  intros Hz He Hm Hvalue.
  destruct (Z.leb_spec e (-21)) as [Hok | Hbad]; [exact Hok |].
  assert (Hpow : 2 ^ (- e) <= 2 ^ 20) by (apply Z.pow_le_mono_r; lia).
  assert (Hpos : 0 < 2 ^ (- e)) by (apply Z.pow_pos_nonneg; lia).
  assert (Hprod : z * 2 ^ (- e) <= (2 ^ 32 - 1) * 2 ^ 20).
  { transitivity ((2 ^ 32 - 1) * 2 ^ (- e)).
    - apply Z.mul_le_mono_nonneg_r; lia.
    - apply Z.mul_le_mono_nonneg_l; [lia | exact Hpow]. }
  change ((2 ^ 32 - 1) * 2 ^ 20) with 4503599626321920 in Hprod.
  change (2 ^ 52) with 4503599627370496 in Hm. lia.
Qed.

(** The percentage shown is the exact quotient [|diff / base| * 100] rounded
    to the nearest tenth, for all counts that an array length can take. *)
Lemma percent_of_nearest_tenth (E : Imports) (b c : Z) :
  0 < b < 2 ^ 32 -> 0 < c < 2 ^ 32 ->
  exists tenths : Z,
    percent_of E (b - c) b = one_decimal tenths /\
    2 * Z.abs (tenths * b - 1000 * Z.abs (b - c)) <= b.
Proof.
  intros Hb Hc. unfold percent_of.
  destruct (Number_of_Z_finite b) as (m2 & e2 & Hnum2 & Hm2 & He2 & Hvalue2);
    [lia | change (2 ^ 53) with (2 ^ 32 * 2 ^ 21); change (2 ^ 32) with 4294967296 in *; lia |].
  rewrite Z.abs_eq in Hvalue2 by lia.
  destruct (Z.eq_dec (b - c) 0) as [Hzero | Hdiff].
  - rewrite Hzero, Hnum2. exists 0. split; [reflexivity | simpl; lia].
  - set (D := Z.abs (b - c)) in *.
    assert (HD : 0 < D < 2 ^ 32) by (unfold D; lia).
    destruct (Number_of_Z_finite (b - c)) as (m1 & e1 & Hnum1 & Hm1 & He1 & Hvalue1);
      [exact Hdiff
      | fold D; change (2 ^ 53) with (2 ^ 32 * 2 ^ 21);
        change (2 ^ 32) with 4294967296 in *; lia |].
    fold D in Hvalue1.
    pose proof (small_count_exponent D e1 m1 HD He1 (proj1 Hm1) Hvalue1) as He1'.
    pose proof (small_count_exponent b e2 m2 Hb He2 (proj1 Hm2) Hvalue2) as He2'.
    destruct (Number_div_located (b - c <? 0) (b <? 0) m1 m2 e1 e2 Hm1 Hm2 He1 He2)
      as (mq & eq & Hdiv & Hmq & Heq & Hnearq).
    destruct (Number_mul_100_located (xorb (b - c <? 0) (b <? 0)) mq eq Hmq ltac:(lia))
      as (mr & er & Hmul & Hmr & Her & Hnearr).
    rewrite Hnum1, Hnum2, Hdiv, Hmul.
    cbn [Math_abs SFabs toFixed].
    assert (Her0 : er < 0) by lia.
    assert (HW : 0 < 2 ^ (- er)) by (apply Z.pow_pos_nonneg; lia).
    assert (Hbig : at_least_1e21 mr er = false).
    { unfold at_least_1e21. destruct (Z.leb_spec 0 er) as [Hge | _]; [lia |].
      apply Z.leb_gt. change (2 ^ 53) with 9007199254740992 in Hmr.
      change (10 ^ 21) with 1000000000000000000000. lia. }
    rewrite Hbig. cbn [append].
    pose proof (nearest_scaled_is_nearest mr er 1 Her0) as Hround.
    cbv zeta in Hround. change (10 ^ Z.of_nat 1) with 10 in Hround.
    set (t := nearest_scaled mr er 1) in *.
    set (W := 2 ^ (- er)) in *.
    assert (Hm1Z : 2 ^ 52 <= Zpos m1) by lia.
    assert (Ht : 0 <= t).
    { destruct (Z.leb_spec 0 t) as [Hok | Hneg]; [exact Hok |].
      assert (2 * W * t <= 2 * W * (-1)) by (apply Z.mul_le_mono_nonneg_l; lia).
      lia. }
    exists t. split; [now apply fixed_notation_one_decimal |].
    set (A := 2 ^ (- e1)) in *. set (B := 2 ^ (- e2)) in *.
    set (Vq := 2 ^ (- eq)).
    set (G := 2 ^ (eq - (e1 - e2 - 53))) in *.
    set (G2 := 2 ^ (er - (eq - 46))) in *.
    assert (HVq : 0 < Vq) by (apply Z.pow_pos_nonneg; lia).
    assert (HA : 0 < A) by (apply Z.pow_pos_nonneg; lia).
    assert (HK : G * B * Vq = 2 ^ 53 * A).
    { unfold G, B, Vq, A. rewrite !pow2_product by lia. f_equal. lia. }
    assert (HK2 : G2 * W = 2 ^ 46 * Vq).
    { unfold G2, W, Vq. rewrite !pow2_product by lia. f_equal. lia. }
    apply (nearest_tenth_arith D b (Zpos mq) Vq (Zpos mr) W t); try assumption.
    + (* the quotient *)
      apply (abs_scale _ _ (2 ^ 53 * A)); [lia |].
      assert (Hsame : (D * Vq - Zpos mq * b) * (2 ^ 53 * A)
                      = Vq * (Zpos m1 * 2 ^ 53 - Zpos mq * (G * Zpos m2))).
      { rewrite Hvalue1, Hvalue2. fold A B.
        replace (Vq * (D * A * 2 ^ 53 - Zpos mq * (G * (b * B))))
          with (D * Vq * (2 ^ 53 * A) - Zpos mq * b * (G * B * Vq)) by ring.
        rewrite HK. ring. }
      rewrite Hsame, Z.abs_mul, (Z.abs_eq Vq) by lia.
      replace (b * (2 ^ 53 * A)) with (Vq * (G * Zpos m2))
        by (rewrite Hvalue2; fold B; rewrite <- HK; ring).
      rewrite Z.mul_assoc, (Z.mul_comm 2 Vq), <- Z.mul_assoc.
      apply Z.mul_le_mono_nonneg_l; [lia | exact Hnearq].
    + (* its hundredfold *)
      apply (abs_scale _ _ (2 ^ 46)); [lia |].
      assert (Hsame : (100 * Zpos mq * W - Zpos mr * Vq) * 2 ^ 46
                      = W * (Zpos mq * (100 * 2 ^ 46) - Zpos mr * G2)).
      { replace (W * (Zpos mq * (100 * 2 ^ 46) - Zpos mr * G2))
          with (100 * Zpos mq * W * 2 ^ 46 - Zpos mr * (G2 * W)) by ring.
        rewrite HK2. ring. }
      rewrite Hsame, Z.abs_mul, (Z.abs_eq W) by lia.
      replace (Vq * 2 ^ 46) with (W * G2) by (rewrite (Z.mul_comm W G2), HK2; ring).
      rewrite Z.mul_assoc, (Z.mul_comm 2 W), <- Z.mul_assoc.
      apply Z.mul_le_mono_nonneg_l; [lia | exact Hnearr].
    + (* the tenths *)
      replace (W * (2 * t - 1)) with (2 * W * t - W) by ring.
      replace (W * (2 * t + 1)) with (2 * W * t + W) by ring.
      replace (20 * Zpos mr) with (2 * (Zpos mr * 10)) by ring.
      exact Hround.
Qed.

(** An exact half may go either way, the quotient being computed in binary
    floating point: savings(80, 29) is 63.75 per cent and shows as 63.7. *)
Lemma percent_of_80_29 (E : Imports) :
  percent_of E (80 - 29) 80 = "63.7" /\ 2 * (1000 * (80 - 29) - 637 * 80) = 80.
Proof. split; vm_compute; reflexivity. Qed.

(** C6: for positive integer token counts, taken up to [2^53] where the
    integers and the numbers of the code agree, [calculateSavings] returns a
    record with [diff = base - compare], [percent] the value of
    [Math.abs((diff / base) * 100).toFixed(1)], [sign] '-' exactly when
    [diff > 0] and '+' otherwise, and [isSavings] (the spec's isImprovement)
    true exactly when [diff > 0].  For counts below [2^32], which every
    array length is, the percentage is the exact quotient
    [|diff / base| * 100] rounded to the nearest tenth and written with one
    decimal.  savings(100, 80) and savings(80, 100) are the two records of
    the specification. *)
Theorem calculateSavings_of_positive_counts (E : Imports) :
  (forall baseTokens compareTokens : Z,
      0 < baseTokens <= 2 ^ 53 -> 0 < compareTokens <= 2 ^ 53 ->
      exists r : Savings,
        calculateSavings E (Some baseTokens) (Some compareTokens) = Some r /\
        diff r = baseTokens - compareTokens /\
        percent r =
          toFixed E (Math_abs (Number_mul (Number_div (Number_of_Z (diff r))
                                                      (Number_of_Z baseTokens))
                                          (Number_of_Z 100))) 1 /\
        (sign r = Minus <-> 0 < diff r) /\
        (sign r = Plus <-> diff r <= 0) /\
        (isSavings r = true <-> 0 < diff r) /\
        (baseTokens < 2 ^ 32 -> compareTokens < 2 ^ 32 ->
         exists tenths : Z,
           percent r = one_decimal tenths /\
           2 * Z.abs (tenths * baseTokens - 1000 * Z.abs (diff r)) <= baseTokens)) /\
  calculateSavings E (Some 100) (Some 80)
    = Some {| diff := 20; percent := "20.0"; sign := Minus; isSavings := true |} /\
  calculateSavings E (Some 80) (Some 100)
    = Some {| diff := -20; percent := "25.0"; sign := Plus; isSavings := false |}.
Proof.
  split; [| split; vm_compute; reflexivity].
  intros b c Hb Hc. unfold calculateSavings, no_tokens.
  destruct (Z.eqb_spec b 0) as [-> | _]; [lia |].
  destruct (Z.eqb_spec c 0) as [-> | _]; [lia |].
  cbn [orb]. eexists. split; [reflexivity |]. cbn [diff percent sign isSavings].
  split; [reflexivity |]. split; [reflexivity |].
  destruct (Z.ltb_spec 0 (b - c)) as [Hpos | Hneg].
  - repeat split; intros; try lia; try reflexivity; try discriminate.
    apply percent_of_nearest_tenth; lia.
  - repeat split; intros; try lia; try reflexivity; try discriminate.
    apply percent_of_nearest_tenth; lia.
Qed.

(** C7: [calculateSavings] is undefined as soon as either count is zero or
    absent, so a defined result always has a non-zero base to divide by. *)
Theorem calculateSavings_undefined_without_counts (E : Imports) (x : option Z) :
  calculateSavings E (Some 0) x = None /\
  calculateSavings E x (Some 0) = None /\
  calculateSavings E None x = None /\
  calculateSavings E x None = None /\
  (forall (baseTokens : option Z) (r : Savings),
      calculateSavings E baseTokens x = Some r ->
      exists b, baseTokens = Some b /\ b <> 0).
Proof.
  unfold calculateSavings. repeat apply conj.
  - reflexivity.
  - change (no_tokens (Some 0)) with true. now rewrite orb_true_r.
  - reflexivity.
  - change (no_tokens None) with true. now rewrite orb_true_r.
  - intros [b |] r; [| discriminate]. unfold no_tokens at 1.
    destruct (Z.eqb_spec b 0) as [-> | Hb]; [discriminate |].
    intros _. now exists b.
Qed.

(** savings(3, 1) and savings(80, 29) on the sample environment: two thirds
    show as 66.7, and the exact half 63.75 as 63.7. *)
Lemma calculateSavings_of_positive_counts_sample :
  calculateSavings Sample.imports (Some 3) (Some 1)
  = Some {| diff := 2; percent := "66.7"; sign := Minus; isSavings := true |} /\
  calculateSavings Sample.imports (Some 80) (Some 29)
  = Some {| diff := 51; percent := "63.7"; sign := Minus; isSavings := true |} /\
  exists tenths : Z,
    "66.7" = one_decimal tenths /\ 2 * Z.abs (tenths * 3 - 1000 * Z.abs 2) <= 3.
Proof.
  destruct (proj1 (calculateSavings_of_positive_counts Sample.imports) 3 1)
    as (r & Hr & _ & _ & _ & _ & _ & Hrounds); [lia | lia |].
  assert (Hvalue : calculateSavings Sample.imports (Some 3) (Some 1)
                   = Some {| diff := 2; percent := "66.7"; sign := Minus;
                             isSavings := true |}) by (vm_compute; reflexivity).
  rewrite Hvalue in Hr. injection Hr as <-.
  repeat apply conj; [reflexivity | vm_compute; reflexivity |].
  apply Hrounds; reflexivity.
Defined.

(** savings(0, 80) and savings(80, 0) are undefined; the defined result
    savings(100, 80) has a non-zero base. *)
Lemma calculateSavings_undefined_without_counts_sample :
  calculateSavings Sample.imports (Some 0) (Some 80) = None /\
  calculateSavings Sample.imports (Some 80) (Some 0) = None /\
  exists b : Z, Some 100 = Some b /\ b <> 0.
Proof.
  pose proof (calculateSavings_undefined_without_counts Sample.imports (Some 80))
    as (Hbase & Hcompare & _ & _ & Hdefined).
  repeat apply conj; [exact Hbase | exact Hcompare |].
  apply (Hdefined (Some 100)
           {| diff := 20; percent := "20.0"; sign := Minus; isSavings := true |}).
  vm_compute. reflexivity.
Defined.

(** C8, as the specification states it, fails for the canonical pane: the
    JSON pane's count is never guarded by its text, so with the tokenizer
    loaded and an empty JSON text the count is 0, not undefined. *)
Lemma jsonTokens_of_empty_text_sample :
  let s := Sample.loaded EmptyString ed_json in
  tokenizer s = Some Sample.gpt_tokenizer /\
  option_map Format.output (pane Sample.imports s id_json) = Some EmptyString /\
  option_map Format.tokens (pane Sample.imports s id_json) = Some (Some 0) /\
  option_map Format.tokens (pane Sample.imports s id_json) <> Some None.
Proof. repeat split. discriminate. Qed.

(** C8, amended: every pane's count is undefined while the tokenizer is not
    loaded; a derived pane's count (TOON, YAML, CSV) is undefined while its
    text is empty; with the tokenizer loaded, the count of the JSON pane
    (whatever its text) and of a derived pane with a non-empty text is the
    length of the tokenizer's encoding of the pane's text. *)
Theorem tokens_of_every_pane (E : Imports) (s : State) :
  Forall (fun f : Format.t =>
            (tokenizer s = None -> Format.tokens f = None) /\
            (Format.id f <> id_json -> Format.output f = EmptyString ->
             Format.tokens f = None) /\
            (forall T, tokenizer s = Some T ->
                       Format.id f = id_json \/ Format.output f <> EmptyString ->
                       Format.tokens f
                       = Some (Z.of_nat (List.length (GptTokenizer.encode T (Format.output f))))))
         (formats E s).
Proof.
  assert (Hderived : forall text : string,
             let count := if truthy_string text then calculateTokens s text else None in
             (tokenizer s = None -> count = None) /\
             (text = EmptyString -> count = None) /\
             (forall T, tokenizer s = Some T -> text <> EmptyString ->
                        count = Some (Z.of_nat (List.length (GptTokenizer.encode T text))))).
  { intros text count. unfold count, calculateTokens. repeat split.
    - intros ->. now destruct (truthy_string text).
    - intros ->. reflexivity.
    - intros T -> Htext. apply truthy_string_true in Htext. now rewrite Htext. }
  unfold formats. repeat constructor; simpl.
  - unfold jsonTokens, calculateTokens. now intros ->.
  - intros Hid. now contradiction Hid.
  - unfold jsonTokens, calculateTokens. now intros T -> _.
  - apply (Hderived (toonOutput E s)).
  - intros _. apply (Hderived (toonOutput E s)).
  - intros T HT [Hid | Htext]; [discriminate | now apply (Hderived (toonOutput E s))].
  - apply (Hderived (yamlOutput E s)).
  - intros _. apply (Hderived (yamlOutput E s)).
  - intros T HT [Hid | Htext]; [discriminate | now apply (Hderived (yamlOutput E s))].
  - apply (Hderived (csvOutput E s)).
  - intros _. apply (Hderived (csvOutput E s)).
  - intros T HT [Hid | Htext]; [discriminate | now apply (Hderived (csvOutput E s))].
Qed.

(** The TOON pane of a sample session: tokenizer loaded, text [[1]: 1]. *)
Lemma tokens_of_every_pane_sample :
  exists f : Format.t,
    pane Sample.imports (Sample.loaded "[1]" ed_json) id_toon = Some f /\
    Format.output f = "[1]: 1" /\
    Format.tokens f
    = Some (Z.of_nat (List.length (GptTokenizer.encode Sample.gpt_tokenizer (Format.output f)))).
Proof.
  destruct (pane Sample.imports (Sample.loaded "[1]" ed_json) id_toon) as [f |] eqn:Hpane;
    [| vm_compute in Hpane; discriminate Hpane].
  exists f.
  pose proof (tokens_of_every_pane Sample.imports (Sample.loaded "[1]" ed_json)) as Hall.
  rewrite Forall_forall in Hall.
  destruct (Hall f (proj1 (find_some _ _ Hpane))) as (_ & _ & Hcount).
  vm_compute in Hpane. injection Hpane as <-.
  repeat apply conj; [reflexivity | reflexivity |].
  apply Hcount; [reflexivity |].
  right. intros Hempty. discriminate Hempty.
Defined.

(** ** Share-state codec *)

(** C1: decoding the token that [encodeState] produces for a session gives
    back the object [{ json, delimiter, indent }] holding the session's
    canonical text, its delimiter character and its indent, whenever the
    libraries invert one another on it: the text of that object is not
    empty and parses back to it, its bytes decode to it, the compressed bytes
    decompress to them, and the token decodes to the compressed bytes. *)
Theorem decodeState_encodeState (E : Imports) (s : State) :
  let state := JObj [ ("json", JStr (jsonInput s));
                      ("delimiter", JStr (delimiter_char (delimiter s)));
                      ("indent", JNum (Number_of_Z (indent s))) ] in
  let text := JSON_stringify E state None in
  let bytes := stringToUint8Array E text in
  let compressed := zlibSync E bytes in
  text <> EmptyString ->
  JSON_parse E text = Normal state ->
  uint8ArrayToString E bytes = Normal text ->
  unzlibSync E compressed = Normal bytes ->
  base64ToUint8Array E (uint8ArrayToBase64 E compressed true) = Normal compressed ->
  decodeState E (encodeState E s)
  = Normal (Some (JObj [ ("json", JStr (jsonInput s));
                         ("delimiter", JStr (delimiter_char (delimiter s)));
                         ("indent", JNum (Number_of_Z (indent s))) ])).
Proof.
  intros state text bytes compressed Htext Hparse Hutf8 Hzlib Hbase64.
  change (encodeState E s) with (uint8ArrayToBase64 E compressed true).
  unfold decodeState.
  rewrite Hbase64. simpl. rewrite Hzlib. simpl. rewrite Hutf8. simpl.
  apply truthy_string_true in Htext. rewrite Htext, Hparse. reflexivity.
Qed.

(** The round trip on two sample sessions: the default options, and the pipe
    delimiter with an indent of four. *)
Lemma decodeState_encodeState_sample :
  decodeState Sample.imports (encodeState Sample.imports (Sample.loaded "[1]" ed_json))
  = Normal (Some (JObj [ ("json", JStr "[1]"); ("delimiter", JStr ",");
                         ("indent", JNum (Number_of_Z 2)) ])) /\
  decodeState Sample.imports
    (encodeState Sample.imports
       (set_indent 4 (set_delimiter Pipe (Sample.loaded "[1]" ed_csv))))
  = Normal (Some (JObj [ ("json", JStr "[1]"); ("delimiter", JStr "|");
                         ("indent", JNum (Number_of_Z 4)) ])).
Proof.
  split.
  - apply (decodeState_encodeState Sample.imports (Sample.loaded "[1]" ed_json));
      try reflexivity; discriminate.
  - apply (decodeState_encodeState Sample.imports
             (set_indent 4 (set_delimiter Pipe (Sample.loaded "[1]" ed_csv))));
      try reflexivity; discriminate.
Defined.

(** C2: [decodeState] never throws, and returns [undefined] as soon as one
    of its four steps does: the Base64 decoding, the decompression, the text
    decoding, or [JSON.parse]. *)
Theorem decodeState_never_throws (E : Imports) (hash : string) :
  (exists r, decodeState E hash = Normal r) /\
  (forall e, base64ToUint8Array E hash = Throw e -> decodeState E hash = Normal None) /\
  (forall bytes e,
      base64ToUint8Array E hash = Normal bytes ->
      unzlibSync E bytes = Throw e -> decodeState E hash = Normal None) /\
  (forall bytes decompressed e,
      base64ToUint8Array E hash = Normal bytes ->
      unzlibSync E bytes = Normal decompressed ->
      uint8ArrayToString E decompressed = Throw e -> decodeState E hash = Normal None) /\
  (forall bytes decompressed decoded e,
      base64ToUint8Array E hash = Normal bytes ->
      unzlibSync E bytes = Normal decompressed ->
      uint8ArrayToString E decompressed = Normal decoded ->
      JSON_parse E decoded = Throw e -> decodeState E hash = Normal None).
Proof.
  unfold decodeState. repeat split.
  - destruct (base64ToUint8Array E hash) as [bytes |]; simpl; [| eauto].
    destruct (unzlibSync E bytes) as [decompressed |]; simpl; [| eauto].
    destruct (uint8ArrayToString E decompressed) as [decoded |]; simpl; [| eauto].
    destruct (truthy_string decoded); simpl; [| eauto].
    destruct (JSON_parse E decoded); simpl; eauto.
  - intros e ->. reflexivity.
  - intros bytes e -> Hzlib. simpl. now rewrite Hzlib.
  - intros bytes decompressed e -> Hzlib Hutf8. simpl. rewrite Hzlib. simpl.
    now rewrite Hutf8.
  - intros bytes decompressed decoded e -> Hzlib Hutf8 Hparse. simpl.
    rewrite Hzlib. simpl. rewrite Hutf8. simpl. rewrite Hparse.
    now destruct (truthy_string decoded).
Qed.

(** Malformed tokens on the sample libraries: not Base64, Base64 of bytes
    that are no zlib stream, and a stream whose text is no JSON. *)
Lemma decodeState_never_throws_sample :
  decodeState Sample.imports "!!" = Normal None /\
  decodeState Sample.imports "AAAA" = Normal None /\
  decodeState Sample.imports "eJxb" = Normal None.
Proof.
  repeat apply conj.
  - apply (proj1 (proj2 (decodeState_never_throws Sample.imports "!!"))
             (ErrorObject "The string to be decoded is not correctly encoded.")).
    reflexivity.
  - apply (proj1 (proj2 (proj2 (decodeState_never_throws Sample.imports "AAAA")))
             [Byte.x00; Byte.x00; Byte.x00] (ErrorObject "invalid zlib data"));
      reflexivity.
  - apply (proj2 (proj2 (proj2 (proj2 (decodeState_never_throws Sample.imports "eJxb"))))
             [Byte.x78; Byte.x9c; Byte.x5b] [Byte.x5b] "["
             (ErrorObject "Unexpected end of JSON input"));
      reflexivity.
Defined.

(** C10: the derived outputs and the share token are functions of the
    canonical text, the delimiter, the indent and the loaded libraries: two
    sessions that agree on these have the same TOON, YAML and CSV outputs
    and the same token, whatever else differs between them (the active
    editor, the editors' buffers, the tokenizer). *)
Theorem outputs_and_token_deterministic (E : Imports) (s1 s2 : State) :
  jsonInput s1 = jsonInput s2 ->
  delimiter s1 = delimiter s2 ->
  indent s1 = indent s2 ->
  yaml s1 = yaml s2 ->
  papa s1 = papa s2 ->
  toonOutput E s1 = toonOutput E s2 /\
  yamlOutput E s1 = yamlOutput E s2 /\
  csvOutput E s1 = csvOutput E s2 /\
  encodeState E s1 = encodeState E s2.
Proof.
  intros Hjson Hdelimiter Hindent Hyaml Hpapa.
  pose proof (parsedJson_reads_jsonInput E s1 s2 Hjson) as Hparsed.
  unfold toonOutput, yamlOutput, csvOutput, encodeState, playgroundState.
  rewrite Hparsed, Hjson, Hdelimiter, Hindent, Hyaml, Hpapa.
  repeat split.
Qed.

(** Two sample sessions that differ in the active editor, the YAML buffer and
    the tokenizer. *)
Lemma outputs_and_token_deterministic_sample :
  let s1 := Sample.loaded "[1]" ed_json in
  let s2 := set_tokenizer None (set_yamlInput "- 2" (Sample.loaded "[1]" ed_yaml)) in
  toonOutput Sample.imports s1 = toonOutput Sample.imports s2 /\
  yamlOutput Sample.imports s1 = yamlOutput Sample.imports s2 /\
  csvOutput Sample.imports s1 = csvOutput Sample.imports s2 /\
  encodeState Sample.imports s1 = encodeState Sample.imports s2.
Proof.
  apply (outputs_and_token_deterministic Sample.imports
           (Sample.loaded "[1]" ed_json)
           (set_tokenizer None (set_yamlInput "- 2" (Sample.loaded "[1]" ed_yaml))));
    reflexivity.
Defined.

(** ** Synchronisation *)

Section Edits.

Context (E : Imports).

(** A flush whose first round changes no ref and leaves nothing pending. *)
Lemma flushJobs_one_quiet_round (n : nat) (a : App) :
  (0 < n)%nat ->
  refs (run_jobs E a) = refs a ->
  pending (run_jobs E a) = false ->
  refs (flushJobs E n a) = refs a.
Proof.
  intros Hn Hrefs Hrest. destruct n as [| n]; [lia |]. simpl.
  destruct (pending a); [| reflexivity].
  now rewrite flushJobs_at_rest.
Qed.

Lemma recursion_limit_positive : (0 < recursion_limit)%nat.
Proof. unfold recursion_limit. lia. Qed.

(** An edit of the canonical text that leaves it in error writes
    [jsonInput] and nothing else. *)
Lemma failed_json_edit_refs (a : App) (text : string) :
  pending a = false ->
  has_error (parsedJson E (set_jsonInput text (refs a))) = true ->
  refs (dispatch E (Input id_json text) a) = set_jsonInput text (refs a).
Proof.
  intros Hrest Herr. apply pending_false in Hrest as (Hj & Hy & Hc).
  unfold dispatch.
  change (exec (handle E (Input id_json text)) (refs a)) with (set_jsonInput text (refs a)).
  set (a0 := {| refs := set_jsonInput text (refs a); watchers := watchers a |}).
  assert (Hsync : exec (syncOutputs E) (refs a0) = refs a0)
    by (unfold exec; now rewrite syncOutputs_on_error).
  assert (Hround : refs (run_jobs E a0) = refs a0 /\ pending (run_jobs E a0) = false).
  { unfold run_jobs, job_jsonInput.
    destruct (String.eqb_spec (jsonInput (refs a0)) (seen_jsonInput (watchers a0)))
      as [Hsame | Hnew].
    - destruct (job_yamlInput_after E a0) as (_ & _ & _ & _ & _ & Hid2 & _).
      rewrite (Hid2 Hy).
      destruct (job_csvInput_after E a0) as (_ & _ & _ & _ & _ & Hid3 & _).
      rewrite (Hid3 Hc). split; [reflexivity |]. apply pending_false. auto.
    - rewrite Hsync.
      set (a1 := {| refs := refs a0; watchers := _ |}).
      destruct (job_yamlInput_after E a1) as (_ & _ & _ & _ & _ & Hid2 & _).
      rewrite (Hid2 Hy).
      destruct (job_csvInput_after E a1) as (_ & _ & _ & _ & _ & Hid3 & _).
      rewrite (Hid3 Hc). split; [reflexivity |]. apply pending_false. auto. }
  destruct Hround as (Hrefs & Hquiet).
  now rewrite flushJobs_one_quiet_round by (auto using recursion_limit_positive).
Qed.

(** While the canonical text is in error, every derived output is empty. *)
Lemma outputs_empty_on_error (s : State) :
  has_error (parsedJson E s) = true ->
  toonOutput E s = EmptyString /\ yamlOutput E s = EmptyString /\ csvOutput E s = EmptyString.
Proof.
  intros Herr. unfold toonOutput, yamlOutput, csvOutput. rewrite Herr.
  repeat split; [now destruct (yaml s) | now destruct (papa s)].
Qed.

(** C3, amended: an edit that leaves the canonical text in error changes
    [jsonInput] and nothing else, so the [yamlInput] and [csvInput] buffers
    keep their last values; the derived texts that the TOON, YAML and CSV
    panes show ([toonOutput], [yamlOutput], [csvOutput]) are empty for as long
    as the error lasts. *)
Theorem failed_canonical_edit (a : App) (text : string) :
  pending a = false ->
  has_error (parsedJson E (set_jsonInput text (refs a))) = true ->
  let s' := refs (dispatch E (Input id_json text) a) in
  s' = set_jsonInput text (refs a) /\
  yamlInput s' = yamlInput (refs a) /\
  csvInput s' = csvInput (refs a) /\
  toonOutput E s' = EmptyString /\
  yamlOutput E s' = EmptyString /\
  csvOutput E s' = EmptyString.
Proof.
  intros Hrest Herr s'. unfold s'. rewrite failed_json_edit_refs by assumption.
  destruct (outputs_empty_on_error _ Herr) as (Htoon & Hyaml & Hcsv).
  repeat split; assumption.
Qed.

(** An edit of the active YAML editor that [yaml.parse] rejects writes
    [yamlInput] and nothing else. *)
Lemma failed_yaml_edit (a : App) (text : string) (Y : Yaml.t) (e : Thrown) :
  pending a = false ->
  yaml (refs a) = Some Y ->
  Yaml.parse Y text = Throw e ->
  refs (dispatch E (Input id_yaml text) a) = set_yamlInput text (refs a).
Proof.
  intros Hrest Hlib Hparse. apply pending_false in Hrest as (Hj & Hy & Hc).
  unfold dispatch.
  change (exec (handle E (Input id_yaml text)) (refs a)) with (set_yamlInput text (refs a)).
  assert (Hcb : exec (on_yamlInput E) (set_yamlInput text (refs a))
                = set_yamlInput text (refs a)).
  { run_method. destruct (Editor_eqb _ _); simpl; [| reflexivity].
    now rewrite Hlib, Hparse. }
  set (a0 := {| refs := set_yamlInput text (refs a); watchers := watchers a |}).
  change (set_yamlInput text (refs a)) with (refs a0) in Hcb.
  assert (Hround : refs (run_jobs E a0) = refs a0 /\ pending (run_jobs E a0) = false).
  { unfold run_jobs.
    destruct (job_jsonInput_after E a0) as (_ & _ & _ & _ & Hid1 & _).
    rewrite (Hid1 Hj). unfold job_yamlInput.
    destruct (String.eqb_spec (yamlInput (refs a0)) (seen_yamlInput (watchers a0)))
      as [Hsame | Hnew].
    - destruct (job_csvInput_after E a0) as (_ & _ & _ & _ & _ & Hid3 & _).
      rewrite (Hid3 Hc). split; [reflexivity |]. apply pending_false. auto.
    - rewrite Hcb.
      set (a1 := {| refs := refs a0; watchers := _ |}).
      destruct (job_csvInput_after E a1) as (_ & _ & _ & _ & _ & Hid3 & _).
      rewrite (Hid3 Hc). split; [reflexivity |]. apply pending_false. auto. }
  destruct Hround as (Hrefs & Hquiet).
  now rewrite flushJobs_one_quiet_round by (auto using recursion_limit_positive).
Qed.

(** The same for the CSV editor, when [Papa.parse] throws or returns no
    data. *)
Lemma failed_csv_edit (a : App) (text : string) (P : Papa.t) :
  pending a = false ->
  papa (refs a) = Some P ->
  (forall result, Papa.parse P text csv_config = Normal result ->
                  truthy (Papa.data result) = false) ->
  refs (dispatch E (Input id_csv text) a) = set_csvInput text (refs a).
Proof.
  intros Hrest Hlib Hparse. apply pending_false in Hrest as (Hj & Hy & Hc).
  unfold dispatch.
  change (exec (handle E (Input id_csv text)) (refs a)) with (set_csvInput text (refs a)).
  assert (Hcb : exec (on_csvInput E) (set_csvInput text (refs a))
                = set_csvInput text (refs a)).
  { run_method. destruct (Editor_eqb _ _); simpl; [| reflexivity].
    rewrite Hlib.
    destruct (Papa.parse P text csv_config) as [result |] eqn:Hresult; simpl;
      [| reflexivity].
    now rewrite (Hparse result eq_refl). }
  set (a0 := {| refs := set_csvInput text (refs a); watchers := watchers a |}).
  change (set_csvInput text (refs a)) with (refs a0) in Hcb.
  assert (Hround : refs (run_jobs E a0) = refs a0 /\ pending (run_jobs E a0) = false).
  { unfold run_jobs.
    destruct (job_jsonInput_after E a0) as (_ & _ & _ & _ & Hid1 & _).
    rewrite (Hid1 Hj).
    destruct (job_yamlInput_after E a0) as (_ & _ & _ & _ & _ & Hid2 & _).
    rewrite (Hid2 Hy). unfold job_csvInput.
    destruct (String.eqb_spec (csvInput (refs a0)) (seen_csvInput (watchers a0)))
      as [Hsame | Hnew].
    - split; [reflexivity |]. apply pending_false. auto.
    - rewrite Hcb. split; [reflexivity |]. apply pending_false. auto. }
  destruct Hround as (Hrefs & Hquiet).
  now rewrite flushJobs_one_quiet_round by (auto using recursion_limit_positive).
Qed.

(** [parseInput.csv] looks at [result.data] and never at [result.errors]:
    rows returned together with errors replace the canonical text. *)
Lemma parseInput_csv_ignores_errors (s : State) (text : string) (P : Papa.t)
      (result : Papa.ParseResult) :
  papa s = Some P ->
  Papa.parse P text csv_config = Normal result ->
  truthy (Papa.data result) = true ->
  exec (parseInput_csv E text) s
  = set_jsonInput (JSON_stringify E (Papa.data result) (Some 2)) s.
Proof.
  intros Hlib Hparse Hdata. run_method. now rewrite Hlib, Hparse, Hdata.
Qed.

End Edits.

(** C3, as the specification states it, fails: on the sample session the
    failing edit [[] turns the TOON, YAML and CSV texts shown from the
    serialisations of the last good document into the empty text. *)
Lemma failed_canonical_edit_blanks_outputs_sample :
  let before := refs Sample.started in
  let after := refs (dispatch Sample.imports (Input id_json "[") Sample.started) in
  has_error (parsedJson Sample.imports before) = false /\
  has_error (parsedJson Sample.imports after) = true /\
  toonOutput Sample.imports before = "[1]{a,b}:" ++ Sample.nl ++ "  1,2" /\
  yamlOutput Sample.imports before = "- a: 1" ++ Sample.nl ++ "  b: 2" ++ Sample.nl /\
  csvOutput Sample.imports before = "a,b" ++ Sample.cr ++ Sample.nl ++ "1,2" /\
  toonOutput Sample.imports after = EmptyString /\
  yamlOutput Sample.imports after = EmptyString /\
  csvOutput Sample.imports after = EmptyString /\
  toonOutput Sample.imports after <> toonOutput Sample.imports before.
Proof. vm_compute. repeat split. discriminate. Qed.

(** The failing edit [[] on the sample session. *)
Lemma failed_canonical_edit_sample :
  let s' := refs (dispatch Sample.imports (Input id_json "[") Sample.started) in
  s' = set_jsonInput "[" (refs Sample.started) /\
  yamlInput s' = yamlInput (refs Sample.started) /\
  csvInput s' = csvInput (refs Sample.started) /\
  toonOutput Sample.imports s' = EmptyString /\
  yamlOutput Sample.imports s' = EmptyString /\
  csvOutput Sample.imports s' = EmptyString.
Proof.
  apply (failed_canonical_edit Sample.imports Sample.started "[");
    vm_compute; reflexivity.
Defined.

(** C4 fails for the CSV editor.  PapaParse reports malformed input in
    [result.errors] and still returns the rows it could read; the callback
    tests [result.data] only.  On the sample session, with the CSV editor
    active and the canonical text [[1]], typing a row whose quoted field is
    never closed replaces the canonical text and the Document. *)
Lemma malformed_csv_overwrites_canonical_sample :
  let before := run Sample.imports [Input id_json "[1]"; Focus id_csv] Sample.started in
  let after := dispatch Sample.imports (Input id_csv Sample.unterminated_csv) before in
  activeEditor (refs before) = ed_csv /\
  Papa.parse Sample.papa_lib Sample.unterminated_csv csv_config
  = Normal {| Papa.data := Sample.rows; Papa.errors := [Sample.missing_quotes] |} /\
  jsonInput (refs before) = "[1]" /\
  data (parsedJson Sample.imports (refs before)) = Sample.list1 /\
  jsonInput (refs after) = Sample.rows_pretty /\
  data (parsedJson Sample.imports (refs after)) = Sample.rows /\
  toonOutput Sample.imports (refs before) = "[1]: 1" /\
  toonOutput Sample.imports (refs after) = "[1]{a,b}:" ++ Sample.nl ++ "  1,2".
Proof. vm_compute. repeat split. Qed.

(** C5: the code guards the wrong text.  The guards on [activeEditor] (in
    [syncOutputs] and in the two watcher callbacks) keep derivation away
    from the ref behind the active editor, but the YAML and CSV panes do not
    show that ref: their textarea is bound to [output], which is
    [yamlOutput] / [csvOutput], the derivation from the canonical Document,
    whichever editor is active; only the JSON pane shows its own ref.  On the
    sample session, with the YAML editor active, typing the flow sequence
    [[1]] leaves [yamlInput] holding what was typed while the pane shows the
    block sequence derived from the Document: the text of the active
    representation has been replaced by derivation. *)
Lemma active_yaml_pane_is_rederived_sample :
  let before := dispatch Sample.imports (Focus id_yaml) Sample.started in
  let after := dispatch Sample.imports (Input id_yaml "[1]") before in
  activeEditor (refs after) = ed_yaml /\
  yamlInput (refs after) = "[1]" /\
  option_map Format.output (pane Sample.imports (refs before) id_yaml)
  = Some ("- a: 1" ++ Sample.nl ++ "  b: 2" ++ Sample.nl) /\
  option_map Format.output (pane Sample.imports (refs after) id_yaml)
  = Some ("- 1" ++ Sample.nl) /\
  option_map Format.output (pane Sample.imports (refs after) id_yaml) <> Some "[1]" /\
  option_map Format.output (pane Sample.imports (refs after) id_json)
  = Some (jsonInput (refs after)).
Proof. vm_compute. repeat split. discriminate. Qed.

(** X18: no derivation writes the ref behind the active editor.
    [syncOutputs] keeps it, and so does every flush of the watcher jobs
    ([syncOutputs] and the two parse callbacks), so what is typed into the
    active editor is what its ref holds once the edit has settled, from any
    state. *)
Theorem derivation_spares_active_buffer (E : Imports) :
  (forall s : State,
      activeEditor (exec (syncOutputs E) s) = activeEditor s /\
      buffer (activeEditor s) (exec (syncOutputs E) s) = buffer (activeEditor s) s) /\
  (forall (n : nat) (a : App),
      activeEditor (refs (flushJobs E n a)) = activeEditor (refs a) /\
      buffer (activeEditor (refs a)) (refs (flushJobs E n a))
      = buffer (activeEditor (refs a)) (refs a)) /\
  (forall (a : App) (value : string),
      let ed := activeEditor (refs a) in
      activeEditor (refs (dispatch E (Input (editor_id ed) value) a)) = ed /\
      buffer ed (refs (dispatch E (Input (editor_id ed) value) a)) = value).
Proof.
  repeat apply conj.
  - intros s. destruct (syncOutputs_writes E s) as (Hjson & Hactive & _).
    split; [exact Hactive |].
    destruct (activeEditor s) eqn:Hed; simpl.
    + exact Hjson.
    + unfold exec. rewrite syncOutputs_other_editor by congruence. reflexivity.
    + unfold exec. rewrite syncOutputs_other_editor by congruence. reflexivity.
  - intros n a. apply flushJobs_active_buffer.
  - intros a value ed. unfold dispatch.
    set (a0 := {| refs := exec (handle E (Input (editor_id ed) value)) (refs a);
                  watchers := watchers a |}).
    assert (Hhandled : activeEditor (refs a0) = ed /\ buffer ed (refs a0) = value)
      by (unfold a0, ed; destruct (activeEditor (refs a)) eqn:Hed; simpl; auto).
    destruct Hhandled as (Hactive & Hvalue).
    destruct (flushJobs_active_buffer E recursion_limit a0) as (Hactive' & Hbuffer').
    rewrite Hactive in Hbuffer'. split; congruence.
Qed.

(** C9: with papaparse loaded and the canonical text parsed, the CSV output is
    the text [Papa.unparse] gives for the one-element list holding the
    Document when the Document is not an array, and for the Document itself
    when it is (the empty text if unparse throws); [syncOutputs] writes the
    same serialisation into [csvInput]; and the CSV editor's text is parsed
    with [header] and [dynamicTyping] switched on, the rows so typed becoming
    the canonical text. *)
Theorem csv_adapter (E : Imports) (s : State) (P : Papa.t) :
  papa s = Some P ->
  has_error (parsedJson E s) = false ->
  let d := data (parsedJson E s) in
  (forall text : string,
      isArray d = false -> Papa.unparse P (JArr [d]) = Normal text ->
      csvOutput E s = text) /\
  (forall text : string,
      isArray d = true -> Papa.unparse P d = Normal text ->
      csvOutput E s = text) /\
  (forall e : Thrown,
      Papa.unparse P (if isArray d then d else JArr [d]) = Throw e ->
      csvOutput E s = EmptyString) /\
  (forall text : string,
      activeEditor s = ed_json ->
      fst (syncOutputs E s) = Normal tt ->
      Papa.unparse P (if isArray d then d else JArr [d]) = Normal text ->
      csvInput (exec (syncOutputs E) s) = text) /\
  (forall (text : string) (result : Papa.ParseResult),
      Papa.parse P text {| Papa.header := true; Papa.dynamicTyping := true |}
      = Normal result ->
      truthy (Papa.data result) = true ->
      jsonInput (exec (parseInput_csv E text) s)
      = JSON_stringify E (Papa.data result) (Some 2)).
Proof.
  intros Hlib Hok d. repeat apply conj.
  - intros text Hshape Htext. unfold csvOutput, as_array. fold d.
    now rewrite Hlib, Hok, Hshape, Htext.
  - intros text Hshape Htext. unfold csvOutput, as_array. fold d.
    now rewrite Hlib, Hok, Hshape, Htext.
  - intros e Hthrow. unfold csvOutput, as_array. fold d.
    now rewrite Hlib, Hok, Hthrow.
  - intros text Hactive. run_method. rewrite Hactive, Hok. simpl.
    unfold as_array. fold d.
    destruct (yaml s) as [Y |]; simpl.
    + destruct (Yaml.stringify Y d (indent s)); simpl; [| discriminate].
      rewrite Hlib. intros _ ->. reflexivity.
    + rewrite Hlib. intros _ ->. reflexivity.
  - intros text result Hparse Hdata.
    now rewrite (parseInput_csv_ignores_errors E s text P result Hlib Hparse Hdata).
Qed.

(** The adapter on a sample session whose Document is the object
    [{a: 1, b: 2}], not an array: the CSV output is the table of the
    one-element list [rows]; for the Document [[1]] unparse throws and the
    output is empty; and the table typed into the CSV editor comes back as
    one row of numbers. *)
Lemma csv_adapter_sample :
  let s := Sample.loaded Sample.record_text ed_json in
  let table := "a,b" ++ Sample.cr ++ Sample.nl ++ "1,2" in
  data (parsedJson Sample.imports s) = Sample.record /\
  csvOutput Sample.imports s = table /\
  csvOutput Sample.imports (Sample.loaded "[1]" ed_json) = EmptyString /\
  csvInput (exec (syncOutputs Sample.imports) s) = table /\
  jsonInput (exec (parseInput_csv Sample.imports table) s) = Sample.rows_pretty.
Proof.
  destruct (csv_adapter Sample.imports (Sample.loaded Sample.record_text ed_json)
              Sample.papa_lib) as (Hwrap & _ & _ & Hsync & Hparse);
    [reflexivity | reflexivity |].
  destruct (csv_adapter Sample.imports (Sample.loaded "[1]" ed_json) Sample.papa_lib)
    as (_ & _ & Hthrow & _); [reflexivity | reflexivity |].
  repeat apply conj.
  - reflexivity.
  - apply Hwrap; reflexivity.
  - apply (Hthrow (ErrorObject "Unable to serialize unrecognized input")). reflexivity.
  - apply Hsync; reflexivity.
  - apply (Hparse _ {| Papa.data := Sample.rows; Papa.errors := [] |}); reflexivity.
Defined.

(** ** Further properties of the synchronisation *)

(** X1: the watchers of this component cannot feed one another for ever:
    after every event no watched ref differs from what its watcher saw last
    (two rounds of jobs are enough), and so at the end of every sequence of
    events. *)
Theorem every_event_settles (E : Imports) :
  (forall (n : nat) (a : App), pending (flushJobs E (S (S n)) a) = false) /\
  (forall (ev : Event) (a : App), pending (dispatch E ev a) = false) /\
  (forall (evs : list Event) (a : App),
      pending a = false -> pending (run E evs a) = false).
Proof.
  repeat apply conj.
  - apply flushJobs_settles.
  - apply dispatch_settles.
  - intros evs. unfold run.
    induction evs as [| ev evs IH]; intros a Hrest; simpl; [exact Hrest |].
    apply IH, dispatch_settles.
Qed.

(** X2: an edit of the active YAML editor whose text [yaml.parse] rejects is
    tolerated silently: it changes [yamlInput] and nothing else, so the
    canonical text, the Document and every derived output stay as they
    were. *)
Theorem rejected_yaml_edit_changes_nothing (E : Imports) (a : App) (text : string)
        (Y : Yaml.t) (e : Thrown) :
  pending a = false ->
  yaml (refs a) = Some Y ->
  Yaml.parse Y text = Throw e ->
  let s' := refs (dispatch E (Input id_yaml text) a) in
  s' = set_yamlInput text (refs a) /\
  jsonInput s' = jsonInput (refs a) /\
  parsedJson E s' = parsedJson E (refs a) /\
  csvInput s' = csvInput (refs a) /\
  toonOutput E s' = toonOutput E (refs a) /\
  yamlOutput E s' = yamlOutput E (refs a) /\
  csvOutput E s' = csvOutput E (refs a).
Proof.
  intros Hrest Hlib Hparse s'. unfold s'.
  rewrite (failed_yaml_edit E a text Y e Hrest Hlib Hparse).
  repeat split.
Qed.

(** The unclosed flow sequence [[1] typed into the sample's YAML editor. *)
Lemma rejected_yaml_edit_sample :
  let a := dispatch Sample.imports (Focus id_yaml) Sample.started in
  let s' := refs (dispatch Sample.imports (Input id_yaml "[1") a) in
  s' = set_yamlInput "[1" (refs a) /\
  jsonInput s' = jsonInput (refs a) /\
  parsedJson Sample.imports s' = parsedJson Sample.imports (refs a) /\
  csvInput s' = csvInput (refs a) /\
  toonOutput Sample.imports s' = toonOutput Sample.imports (refs a) /\
  yamlOutput Sample.imports s' = yamlOutput Sample.imports (refs a) /\
  csvOutput Sample.imports s' = csvOutput Sample.imports (refs a).
Proof.
  apply (rejected_yaml_edit_changes_nothing Sample.imports
           (dispatch Sample.imports (Focus id_yaml) Sample.started) "[1" Sample.yaml_lib
           (ErrorObject "Flow sequence must end with a ]"));
    vm_compute; reflexivity.
Defined.

(** X3: a synchronisation pass is idempotent: running [syncOutputs] again
    right after itself leaves the refs as the first run left them. *)
Theorem syncOutputs_idempotent (E : Imports) (s : State) :
  exec (syncOutputs E) (exec (syncOutputs E) s) = exec (syncOutputs E) s.
Proof.
  destruct (negb (Editor_eqb (activeEditor s) ed_json) || has_error (parsedJson E s))
    eqn:Hguard.
  - assert (Hskip : syncOutputs E s = (Normal tt, s)) by (run_method; now rewrite Hguard).
    unfold exec. rewrite Hskip. simpl. now rewrite Hskip.
  - destruct s as [json yamlText csvText delim width active tok [Y |] [P |]];
      run_method; simpl in Hguard; unfold parsedJson in *; simpl in *;
      rewrite ?Hguard; simpl.
    + destruct (Yaml.stringify Y _ width) as [text |] eqn:Hyaml; simpl.
      * destruct (Papa.unparse P _) as [table |] eqn:Hcsv; simpl;
          rewrite ?Hguard; simpl; rewrite ?Hyaml; simpl; rewrite ?Hcsv; reflexivity.
      * rewrite ?Hguard; simpl; rewrite ?Hyaml; reflexivity.
    + destruct (Yaml.stringify Y _ width) as [text |] eqn:Hyaml; simpl;
        rewrite ?Hguard; simpl; rewrite ?Hyaml; reflexivity.
    + destruct (Papa.unparse P _) as [table |] eqn:Hcsv; simpl;
        rewrite ?Hguard; simpl; rewrite ?Hcsv; reflexivity.
    + rewrite ?Hguard. reflexivity.
Qed.

(** X4: an edit of the active canonical editor whose text parses re-derives
    the alternate buffers: with both libraries loaded and serialising the new
    Document, [yamlInput] and [csvInput] become its YAML and CSV texts, the
    YAML and CSV outputs are these same texts, and nothing is left pending. *)
Theorem successful_canonical_edit (E : Imports) (a : App) (text : string)
        (Y : Yaml.t) (P : Papa.t) (yamlText csvText : string) :
  let s0 := set_jsonInput text (refs a) in
  let d := data (parsedJson E s0) in
  pending a = false ->
  text <> jsonInput (refs a) ->
  activeEditor (refs a) = ed_json ->
  has_error (parsedJson E s0) = false ->
  yaml (refs a) = Some Y ->
  papa (refs a) = Some P ->
  Yaml.stringify Y d (indent (refs a)) = Normal yamlText ->
  Papa.unparse P (if isArray d then d else JArr [d]) = Normal csvText ->
  let a' := dispatch E (Input id_json text) a in
  refs a' = set_csvInput csvText (set_yamlInput yamlText s0) /\
  yamlOutput E (refs a') = yamlText /\
  csvOutput E (refs a') = csvText /\
  pending a' = false.
Proof.
  intros s0 d Hrest Hnew Hactive Hok HY HP Hyaml Hcsv a'.
  assert (Hsettled : pending a' = false) by apply dispatch_settles.
  apply pending_false in Hrest as (Hj & Hy & Hc).
  assert (Hsync : exec (syncOutputs E) s0 = set_csvInput csvText (set_yamlInput yamlText s0)).
  { run_method. rewrite Hactive. simpl. rewrite Hok. cbv beta.
    change (yaml s0) with (yaml (refs a)). rewrite HY. fold d.
    change (indent s0) with (indent (refs a)). rewrite Hyaml.
    change (papa (set_yamlInput yamlText s0)) with (papa (refs a)). rewrite HP.
    unfold as_array. rewrite Hcsv. reflexivity. }
  assert (Hrefs : refs a' = set_csvInput csvText (set_yamlInput yamlText s0)).
  { unfold a', dispatch.
    change (exec (handle E (Input id_json text)) (refs a)) with s0.
    set (a0 := {| refs := s0; watchers := watchers a |}).
    assert (Hpending : pending a0 = true).
    { unfold pending. simpl. apply negb_true_iff.
      destruct (String.eqb_spec text (seen_jsonInput (watchers a))) as [Hsame | _];
        [| reflexivity].
      congruence. }
    unfold recursion_limit. rewrite flushJobs_step, Hpending.
    destruct (run_jobs_first_round E a0) as (Hy1 & Hc1 & Hj1).
    assert (Hactive1 : activeEditor (refs (run_jobs E a0)) = ed_json)
      by (destruct (run_jobs_active_buffer E a0) as (-> & _); exact Hactive).
    rewrite flushJobs_at_rest
      by (apply pending_false; destruct Hj1 as [Hj1 | Hj1]; [auto | contradiction]).
    unfold run_jobs.
    destruct (job_jsonInput_after E a0) as (_ & _ & _ & Ha1 & _ & _).
    assert (Hjob : refs (job_jsonInput E a0) = exec (syncOutputs E) s0).
    { unfold job_jsonInput. simpl.
      destruct (String.eqb_spec text (seen_jsonInput (watchers a))) as [Hsame | _];
        [congruence | reflexivity]. }
    set (a1 := job_jsonInput E a0) in *.
    destruct (job_yamlInput_after E a1) as (_ & _ & _ & _ & Ha2 & _ & Hid2).
    set (a2 := job_yamlInput E a1) in *.
    destruct (job_csvInput_after E a2) as (_ & _ & _ & _ & _ & _ & Hid3).
    rewrite Hid3, Hid2, Hjob, Hsync by (simpl in *; congruence).
    reflexivity. }
  rewrite Hrefs. repeat apply conj.
  - reflexivity.
  - unfold yamlOutput. simpl.
    change (parsedJson E (set_csvInput csvText (set_yamlInput yamlText s0)))
      with (parsedJson E s0).
    rewrite HY, Hok. fold d. now rewrite Hyaml.
  - unfold csvOutput, as_array. simpl.
    change (parsedJson E (set_csvInput csvText (set_yamlInput yamlText s0)))
      with (parsedJson E s0).
    rewrite HP, Hok. fold d. now rewrite Hcsv.
  - exact Hsettled.
Qed.

(** The text of [rows] typed over [[1]] in the sample's canonical editor. *)
Lemma successful_canonical_edit_sample :
  let a := dispatch Sample.imports (Input id_json "[1]") Sample.started in
  let s0 := set_jsonInput Sample.rows_pretty (refs a) in
  let yamlText := "- a: 1" ++ Sample.nl ++ "  b: 2" ++ Sample.nl in
  let csvText := "a,b" ++ Sample.cr ++ Sample.nl ++ "1,2" in
  let a' := dispatch Sample.imports (Input id_json Sample.rows_pretty) a in
  refs a' = set_csvInput csvText (set_yamlInput yamlText s0) /\
  yamlOutput Sample.imports (refs a') = yamlText /\
  csvOutput Sample.imports (refs a') = csvText /\
  pending a' = false.
Proof.
  apply (successful_canonical_edit Sample.imports
           (dispatch Sample.imports (Input id_json "[1]") Sample.started)
           Sample.rows_pretty Sample.yaml_lib Sample.papa_lib);
    vm_compute; try reflexivity; discriminate.
Defined.

(** ** One round of jobs decides the refs *)

Section Rounds.

Context (E : Imports).

Lemma run_jobs_at_rest (a : App) : pending a = false -> run_jobs E a = a.
Proof.
  intros Hrest. apply pending_false in Hrest as (Hj & Hy & Hc). unfold run_jobs.
  destruct (job_jsonInput_after E a) as (_ & _ & _ & _ & Hid1 & _).
  rewrite (Hid1 Hj).
  destruct (job_yamlInput_after E a) as (_ & _ & _ & _ & _ & Hid2 & _).
  rewrite (Hid2 Hy).
  destruct (job_csvInput_after E a) as (_ & _ & _ & _ & _ & Hid3 & _).
  exact (Hid3 Hc).
Qed.

(** A second round changes no ref: it only lets the canonical watcher catch
    up with what an alternate editor's parse wrote. *)
Lemma run_jobs_quiet (a : App) :
  yamlInput (refs a) = seen_yamlInput (watchers a) ->
  csvInput (refs a) = seen_csvInput (watchers a) ->
  jsonInput (refs a) = seen_jsonInput (watchers a) \/ activeEditor (refs a) <> ed_json ->
  refs (run_jobs E a) = refs a.
Proof.
  intros Hy Hc Hj. unfold run_jobs.
  destruct (job_jsonInput_after E a) as (_ & Hsy1 & Hsc1 & _ & Hsame & Hother).
  set (a1 := job_jsonInput E a) in *.
  assert (Hrefs : refs a1 = refs a) by (destruct Hj as [Hj | Hj]; [now rewrite Hsame | auto]).
  destruct (job_yamlInput_after E a1) as (_ & _ & _ & _ & _ & Hid2 & _).
  rewrite Hid2 by congruence.
  destruct (job_csvInput_after E a1) as (_ & _ & _ & _ & _ & Hid3 & _).
  rewrite Hid3 by congruence.
  exact Hrefs.
Qed.

Lemma flushJobs_refs (n : nat) (a : App) :
  refs (flushJobs E (S (S n)) a) = refs (run_jobs E a).
Proof.
  rewrite flushJobs_step.
  destruct (pending a) eqn:Ha; [| now rewrite run_jobs_at_rest].
  rewrite flushJobs_step.
  destruct (pending (run_jobs E a)) eqn:Ha1; [| reflexivity].
  destruct (run_jobs_first_round E a) as (Hy & Hc & Hj).
  rewrite flushJobs_at_rest by now apply run_jobs_second_round.
  now apply run_jobs_quiet.
Qed.

(** The refs an event leaves: those of its handler, after one round. *)
Lemma dispatch_refs (ev : Event) (a : App) :
  refs (dispatch E ev a)
  = refs (run_jobs E {| refs := exec (handle E ev) (refs a); watchers := watchers a |}).
Proof. unfold dispatch, recursion_limit. apply flushJobs_refs. Qed.

(** The round, by active editor. *)
Lemma run_jobs_json_active (a : App) :
  activeEditor (refs a) = ed_json ->
  refs (run_jobs E a)
  = if (jsonInput (refs a) =? seen_jsonInput (watchers a))%string then refs a
    else exec (syncOutputs E) (refs a).
Proof.
  intros Hactive. unfold run_jobs.
  destruct (job_jsonInput_after E a) as (_ & _ & _ & Ha1 & _ & _).
  assert (Hjob : refs (job_jsonInput E a)
                 = if (jsonInput (refs a) =? seen_jsonInput (watchers a))%string
                   then refs a else exec (syncOutputs E) (refs a))
    by (unfold job_jsonInput; now destruct (_ =? _)%string).
  set (a1 := job_jsonInput E a) in *.
  destruct (job_yamlInput_after E a1) as (_ & _ & _ & _ & Ha2 & _ & Hid2).
  set (a2 := job_yamlInput E a1) in *.
  destruct (job_csvInput_after E a2) as (_ & _ & _ & _ & _ & _ & Hid3).
  rewrite Hid3, Hid2 by congruence. exact Hjob.
Qed.



End Rounds.

(** ** Share link *)

Section LinkProperties.

Context (E : Imports).

Lemma decodeState_returns (hash : string) :
  exists r, decodeState E hash = Normal r.
Proof.
  unfold decodeState.
  destruct (base64ToUint8Array E hash) as [bytes |]; simpl; [| eauto].
  destruct (unzlibSync E bytes) as [decompressed |]; simpl; [| eauto].
  destruct (uint8ArrayToString E decompressed) as [decoded |]; simpl; [| eauto].
  destruct (truthy_string decoded); simpl; [| eauto].
  destruct (JSON_parse E decoded); simpl; eauto.
Qed.

Lemma decodeState_steps (hash : string) (bytes decompressed : Uint8Array)
      (decoded : string) (v : JsValue) :
  base64ToUint8Array E hash = Normal bytes ->
  unzlibSync E bytes = Normal decompressed ->
  uint8ArrayToString E decompressed = Normal decoded ->
  decoded <> EmptyString ->
  JSON_parse E decoded = Normal v ->
  decodeState E hash = Normal (Some v).
Proof.
  intros Hbase64 Hzlib Hutf8 Htext Hparse. unfold decodeState.
  rewrite Hbase64. simpl. rewrite Hzlib. simpl. rewrite Hutf8. simpl.
  apply truthy_string_true in Htext. now rewrite Htext, Hparse.
Qed.

(** The token of a session decodes to the session's object, when the
    libraries invert one another on it. *)
Lemma decodeState_of_token (s : State) :
  let state := PlaygroundState.to_value (playgroundState s) in
  let text := JSON_stringify E state None in
  let bytes := stringToUint8Array E text in
  let compressed := zlibSync E bytes in
  text <> EmptyString ->
  JSON_parse E text = Normal state ->
  uint8ArrayToString E bytes = Normal text ->
  unzlibSync E compressed = Normal bytes ->
  base64ToUint8Array E (uint8ArrayToBase64 E compressed true) = Normal compressed ->
  decodeState E (encodeState E s) = Normal (Some state).
Proof.
  intros state text bytes compressed Htext Hparse Hutf8 Hzlib Hbase64.
  now apply (decodeState_steps _ compressed bytes text).
Qed.

End LinkProperties.

(** X5: [decodeState] returns a value exactly when the token Base64-decodes,
    the bytes decompress, the result decodes to a text that is not empty, and
    the text parses; the value is then the one [JSON.parse] produced, whatever
    its shape. *)
Theorem decodeState_defined_iff (E : Imports) (hash : string) (v : JsValue) :
  decodeState E hash = Normal (Some v) <->
  exists (bytes decompressed : Uint8Array) (decoded : string),
    base64ToUint8Array E hash = Normal bytes /\
    unzlibSync E bytes = Normal decompressed /\
    uint8ArrayToString E decompressed = Normal decoded /\
    decoded <> EmptyString /\
    JSON_parse E decoded = Normal v.
Proof.
  split.
  - unfold decodeState.
    destruct (base64ToUint8Array E hash) as [bytes |]; simpl; [| discriminate].
    destruct (unzlibSync E bytes) as [decompressed |] eqn:Hzlib; simpl; [| discriminate].
    destruct (uint8ArrayToString E decompressed) as [decoded |] eqn:Hutf8; simpl;
      [| discriminate].
    destruct (truthy_string decoded) eqn:Htext; simpl; [| discriminate].
    destruct (JSON_parse E decoded) as [parsed |] eqn:Hparse; simpl; [| discriminate].
    intros [= ->]. exists bytes, decompressed, decoded.
    apply truthy_string_true in Htext. auto.
  - intros (bytes & decompressed & decoded & Hbase64 & Hzlib & Hutf8 & Htext & Hparse).
    now apply (decodeState_steps E hash bytes decompressed decoded).
Qed.

(** X6: the link round trip.  What [restoreState] assigns from the location
    that [updateUrl] wrote for a session is the session's canonical text,
    delimiter and indent, whenever the token is not empty and the libraries
    invert one another on it. *)
Theorem restoreState_of_updateUrl (E : Imports) (s : State) (url : string) :
  let state := PlaygroundState.to_value (playgroundState s) in
  let text := JSON_stringify E state None in
  let bytes := stringToUint8Array E text in
  let compressed := zlibSync E bytes in
  updateUrl E true s = Some url ->
  encodeState E s <> EmptyString ->
  text <> EmptyString ->
  JSON_parse E text = Normal state ->
  uint8ArrayToString E bytes = Normal text ->
  unzlibSync E compressed = Normal bytes ->
  base64ToUint8Array E (uint8ArrayToBase64 E compressed true) = Normal compressed ->
  restoreState E url
  = Normal (Some {| restored_json := Some (JStr (jsonInput s));
                    restored_delimiter := Some (JStr (delimiter_char (delimiter s)));
                    restored_indent := Some (JNum (Number_of_Z (indent s))) |}).
Proof.
  intros state text bytes compressed Hurl Htoken Htext Hparse Hutf8 Hzlib Hbase64.
  injection Hurl as <-. unfold restoreState. cbv zeta. cbn [slice1 append].
  apply truthy_string_true in Htoken. rewrite Htoken. simpl negb. cbv iota.
  rewrite (decodeState_of_token E s) by assumption.
  reflexivity.
Qed.

(** The round trip on the sample session. *)
Lemma restoreState_of_updateUrl_sample :
  restoreState Sample.imports
               ("#" ++ encodeState Sample.imports (Sample.loaded "[1]" ed_yaml))
  = Normal (Some {| restored_json := Some (JStr "[1]");
                    restored_delimiter := Some (JStr ",");
                    restored_indent := Some (JNum (Number_of_Z 2)) |}).
Proof.
  apply (restoreState_of_updateUrl Sample.imports (Sample.loaded "[1]" ed_yaml));
    try reflexivity; discriminate.
Defined.

(** X7: [restoreState] never throws and assigns nothing when the location
    has no fragment, when [decodeState] gives [undefined], or when the decoded
    value is falsy.  Any other decoded value is taken as it is: its [json],
    [delimiter] and [indent] properties are assigned unchecked, [undefined]
    where the value has no such property. *)
Theorem restoreState_cases (E : Imports) (location_hash : string) :
  (exists r, restoreState E location_hash = Normal r) /\
  (location_hash = EmptyString \/ location_hash = "#" ->
   restoreState E location_hash = Normal None) /\
  (decodeState E (slice1 location_hash) = Normal None ->
   restoreState E location_hash = Normal None) /\
  (forall v, decodeState E (slice1 location_hash) = Normal (Some v) ->
             truthy v = false ->
             restoreState E location_hash = Normal None) /\
  (forall v, slice1 location_hash <> EmptyString ->
             decodeState E (slice1 location_hash) = Normal (Some v) ->
             truthy v = true ->
             restoreState E location_hash
             = Normal (Some {| restored_json := property v "json";
                               restored_delimiter := property v "delimiter";
                               restored_indent := property v "indent" |}) /\
             (forall fields, v = JObj fields ->
                             (forall field, In field fields -> fst field <> "indent") ->
                             property v "indent" = None)).
Proof.
  unfold restoreState. cbv zeta. repeat apply conj.
  - destruct (truthy_string (slice1 location_hash)); simpl; [| eauto].
    destruct (decodeState_returns E (slice1 location_hash)) as ([v |] & ->); simpl;
      [| eauto].
    destruct (truthy v); eauto.
  - intros [-> | ->]; reflexivity.
  - intros ->. now destruct (truthy_string (slice1 location_hash)).
  - intros v -> Hfalsy. simpl. rewrite Hfalsy.
    now destruct (truthy_string (slice1 location_hash)).
  - intros v Hhash -> Htruthy. apply truthy_string_true in Hhash.
    rewrite Hhash. simpl. rewrite Htruthy. split; [reflexivity |].
    intros fields -> Hfields. simpl.
    destruct (find _ fields) as [field |] eqn:Hfind; [| reflexivity].
    apply find_some in Hfind as (Hin & Hkey).
    apply String.eqb_eq in Hkey. now destruct (Hfields field Hin).
Qed.

(** Links without a fragment, with a token that is no Base64, and with the
    token of a session, on the sample libraries. *)
Lemma restoreState_cases_sample :
  restoreState Sample.imports "#" = Normal None /\
  restoreState Sample.imports "#!!" = Normal None /\
  restoreState Sample.imports
               ("#" ++ encodeState Sample.imports (Sample.loaded "[1]" ed_json))
  = Normal (Some {| restored_json := Some (JStr "[1]");
                    restored_delimiter := Some (JStr ",");
                    restored_indent := Some (JNum (Number_of_Z 2)) |}).
Proof.
  repeat apply conj.
  - apply (proj1 (proj2 (restoreState_cases Sample.imports "#"))). now right.
  - apply (proj1 (proj2 (proj2 (restoreState_cases Sample.imports "#!!")))). reflexivity.
  - apply (proj2 (proj2 (proj2 (proj2
             (restoreState_cases Sample.imports
                ("#" ++ encodeState Sample.imports (Sample.loaded "[1]" ed_json))))))
             (PlaygroundState.to_value Sample.session));
      [discriminate | reflexivity | reflexivity].
Defined.

(** ** Failures and successes of a synchronisation *)

(** X8: [syncOutputs] has no [try], unlike the computed outputs: with the
    JSON editor active and the canonical text parsed, an error thrown by
    [yaml.stringify] leaves [syncOutputs] before it reaches the CSV
    library, so no ref is written; an error thrown by [Papa.unparse] escapes
    after [yamlInput] has been written.  The outputs shown do not suffer:
    each falls back to the empty text on its own. *)
Theorem syncOutputs_stops_at_first_failure (E : Imports) (s : State) :
  activeEditor s = ed_json ->
  has_error (parsedJson E s) = false ->
  let d := data (parsedJson E s) in
  (forall (Y : Yaml.t) (e : Thrown),
      yaml s = Some Y -> Yaml.stringify Y d (indent s) = Throw e ->
      syncOutputs E s = (Throw e, s) /\
      yamlOutput E s = EmptyString /\
      (forall P, papa s = Some P ->
                 csvOutput E s = or_empty (Papa.unparse P (if isArray d then d else JArr [d])))) /\
  (forall (P : Papa.t) (e : Thrown),
      papa s = Some P ->
      Papa.unparse P (if isArray d then d else JArr [d]) = Throw e ->
      csvOutput E s = EmptyString /\
      (yaml s = None -> syncOutputs E s = (Throw e, s)) /\
      (forall Y text, yaml s = Some Y -> Yaml.stringify Y d (indent s) = Normal text ->
                      syncOutputs E s = (Throw e, set_yamlInput text s) /\
                      yamlOutput E s = text)).
Proof.
  intros Hactive Hok d. split.
  - intros Y e HY Hyaml. repeat apply conj.
    + run_method. rewrite Hactive, Hok. simpl. rewrite HY. fold d. now rewrite Hyaml.
    + unfold yamlOutput. rewrite HY, Hok. fold d. now rewrite Hyaml.
    + intros P HP. unfold csvOutput, as_array. now rewrite HP, Hok.
  - intros P e HP Hcsv. repeat apply conj.
    + unfold csvOutput, as_array. rewrite HP, Hok. fold d. now rewrite Hcsv.
    + intros HY. run_method. rewrite Hactive, Hok. simpl. rewrite HY, HP.
      unfold as_array. fold d. now rewrite Hcsv.
    + intros Y text HY Hyaml. split.
      * run_method. rewrite Hactive, Hok. simpl. rewrite HY. fold d. rewrite Hyaml.
        simpl. rewrite HP. unfold as_array. fold d. now rewrite Hcsv.
      * unfold yamlOutput. rewrite HY, Hok. fold d. now rewrite Hyaml.
Qed.

(** An indent of zero, which yaml refuses, on the sample session. *)
Lemma syncOutputs_stops_at_first_failure_sample :
  syncOutputs Sample.imports Sample.unindented
  = (Throw (ErrorObject "indent option must be a positive integer, not 0"),
     Sample.unindented) /\
  yamlOutput Sample.imports Sample.unindented = EmptyString /\
  csvOutput Sample.imports Sample.unindented
  = "a,b" ++ Sample.cr ++ Sample.nl ++ "1,2".
Proof.
  destruct (syncOutputs_stops_at_first_failure Sample.imports Sample.unindented)
    as (Hyaml & _); [reflexivity | reflexivity |].
  destruct (Hyaml Sample.yaml_checked
              (ErrorObject "indent option must be a positive integer, not 0"))
    as (Hsync & Hout & Hcsv); [reflexivity | reflexivity |].
  repeat apply conj; [exact Hsync | exact Hout |].
  rewrite (Hcsv Sample.papa_lib eq_refl). reflexivity.
Defined.

(** ** Edits of the alternate editors *)





(** ** Startup *)

(** X11: what [loadLibraries] leaves behind.  The three libraries are stored
    and one synchronisation is run, after the last of them has arrived; no
    watcher reacts to it.  So the canonical text, the options and the active
    editor are as before; with the JSON editor active, the canonical text
    parsed and both serialisers succeeding, [yamlInput] and [csvInput] hold
    what the YAML and CSV panes show; with another editor active or the
    canonical text in error, the two buffers are not touched. *)
Theorem loadLibraries_synchronises_once (E : Imports) (a : App)
        (T : GptTokenizer.t) (Y : Yaml.t) (P : Papa.t) :
  pending a = false ->
  let s := refs a in
  let d := data (parsedJson E s) in
  let s' := refs (run E (loadLibraries T Y P) a) in
  s' = exec (syncOutputs E)
         (set_papa (Some P) (set_yaml (Some Y) (set_tokenizer (Some T) s))) /\
  (jsonInput s' = jsonInput s /\ delimiter s' = delimiter s /\ indent s' = indent s /\
   activeEditor s' = activeEditor s) /\
  (tokenizer s' = Some T /\ yaml s' = Some Y /\ papa s' = Some P) /\
  (forall yamlText csvText,
      activeEditor s = ed_json ->
      has_error (parsedJson E s) = false ->
      Yaml.stringify Y d (indent s) = Normal yamlText ->
      Papa.unparse P (if isArray d then d else JArr [d]) = Normal csvText ->
      yamlInput s' = yamlText /\ csvInput s' = csvText /\
      yamlOutput E s' = yamlText /\ csvOutput E s' = csvText) /\
  (activeEditor s <> ed_json \/ has_error (parsedJson E s) = true ->
   yamlInput s' = yamlInput s /\ csvInput s' = csvInput s).
Proof.
  intros Hrest s d s'.
  set (s3 := set_papa (Some P) (set_yaml (Some Y) (set_tokenizer (Some T) s))).
  assert (Hrefs : s' = exec (syncOutputs E) s3).
  { unfold s', loadLibraries, run. cbn [fold_left].
    assert (H1 : dispatch E (TokenizerLoaded T) a
                 = {| refs := set_tokenizer (Some T) s; watchers := watchers a |})
      by (unfold dispatch; now rewrite flushJobs_at_rest).
    rewrite H1.
    assert (H2 : dispatch E (YamlLoaded Y)
                   {| refs := set_tokenizer (Some T) s; watchers := watchers a |}
                 = {| refs := set_yaml (Some Y) (set_tokenizer (Some T) s);
                      watchers := watchers a |})
      by (unfold dispatch; now rewrite flushJobs_at_rest).
    rewrite H2, dispatch_refs.
    change (exec (handle E (PapaLoaded P))
              (refs {| refs := set_yaml (Some Y) (set_tokenizer (Some T) s);
                       watchers := watchers a |}))
      with (exec (syncOutputs E) s3).
    cbn [watchers].
    apply pending_false in Hrest as (Hj & Hy & Hc).
    destruct (syncOutputs_writes E s3) as (Hjson & Hactive & _).
    destruct (activeEditor s) eqn:Hed.
    - rewrite run_jobs_json_active by (cbn [refs]; rewrite Hactive; exact Hed).
      cbn [refs watchers]. rewrite Hjson.
      change (jsonInput s3) with (jsonInput (refs a)). rewrite Hj, String.eqb_refl.
      reflexivity.
    - assert (Hskip : exec (syncOutputs E) s3 = s3).
      { unfold exec. rewrite syncOutputs_other_editor; [reflexivity |].
        change (activeEditor s3) with (activeEditor s). congruence. }
      rewrite Hskip. rewrite run_jobs_at_rest; [reflexivity |].
      apply pending_false. repeat split; assumption.
    - assert (Hskip : exec (syncOutputs E) s3 = s3).
      { unfold exec. rewrite syncOutputs_other_editor; [reflexivity |].
        change (activeEditor s3) with (activeEditor s). congruence. }
      rewrite Hskip. rewrite run_jobs_at_rest; [reflexivity |].
      apply pending_false. repeat split; assumption. }
  rewrite Hrefs.
  destruct (syncOutputs_writes E s3) as (Hjson & Hactive & Hdelim & Hindent & Htok & Hyaml & Hpapa).
  split; [reflexivity |]. split; [repeat split; assumption |].
  split; [repeat split; assumption |]. split.
  - intros yamlText csvText Hed Hok HyamlText HcsvText.
    assert (Hsync : exec (syncOutputs E) s3 = set_csvInput csvText (set_yamlInput yamlText s3)).
    { run_method. fold s. rewrite Hed. simpl.
      change (parsedJson E s3) with (parsedJson E s). rewrite Hok. cbv beta.
      change (yaml s3) with (Some Y). cbv beta iota. fold d.
      change (indent s3) with (indent s). rewrite HyamlText.
      change (papa (set_yamlInput yamlText s3)) with (Some P). cbv beta iota.
      unfold as_array. fold d. now rewrite HcsvText. }
    rewrite Hsync. repeat apply conj; try reflexivity.
    + unfold yamlOutput. simpl.
      change (parsedJson E (set_csvInput csvText (set_yamlInput yamlText s3)))
        with (parsedJson E s).
      rewrite Hok. fold d. now rewrite HyamlText.
    + unfold csvOutput, as_array. simpl.
      change (parsedJson E (set_csvInput csvText (set_yamlInput yamlText s3)))
        with (parsedJson E s).
      rewrite Hok. fold d. now rewrite HcsvText.
  - intros Hguard.
    assert (Hskip : exec (syncOutputs E) s3 = s3).
    { unfold exec. destruct Hguard as [Hed | Herr].
      - now rewrite syncOutputs_other_editor.
      - now rewrite syncOutputs_on_error. }
    rewrite Hskip. split; reflexivity.
Qed.

(** The three libraries arriving in the session mounted on the text of
    [rows]. *)
Lemma loadLibraries_synchronises_once_sample :
  let s' := refs (run Sample.imports
                    (loadLibraries Sample.gpt_tokenizer Sample.yaml_lib Sample.papa_lib)
                    Sample.mounted) in
  let yamlText := "- a: 1" ++ Sample.nl ++ "  b: 2" ++ Sample.nl in
  let csvText := "a,b" ++ Sample.cr ++ Sample.nl ++ "1,2" in
  yamlInput s' = yamlText /\ csvInput s' = csvText /\
  yamlOutput Sample.imports s' = yamlText /\ csvOutput Sample.imports s' = csvText.
Proof.
  destruct (loadLibraries_synchronises_once Sample.imports Sample.mounted
              Sample.gpt_tokenizer Sample.yaml_lib Sample.papa_lib)
    as (_ & _ & _ & Hsynced & _); [reflexivity |].
  apply Hsynced; reflexivity.
Defined.

(** ** Options, focus and presets *)

Section Quiet.

Context (E : Imports).

(** A handler that writes none of the watched refs queues no job. *)
Lemma dispatch_unwatched (ev : Event) (a : App) :
  pending a = false ->
  jsonInput (exec (handle E ev) (refs a)) = jsonInput (refs a) ->
  yamlInput (exec (handle E ev) (refs a)) = yamlInput (refs a) ->
  csvInput (exec (handle E ev) (refs a)) = csvInput (refs a) ->
  dispatch E ev a = {| refs := exec (handle E ev) (refs a); watchers := watchers a |}.
Proof.
  intros Hrest Hj Hy Hc. unfold dispatch. apply flushJobs_at_rest.
  apply pending_false in Hrest as (Hj0 & Hy0 & Hc0).
  apply pending_false. cbn [refs watchers]. repeat split; congruence.
Qed.

End Quiet.

(** X12: the options reach the outputs, not the buffers.  Selecting a
    delimiter or entering an indent writes that ref alone: no watcher of the
    synchronisation observes the options, so [yamlInput] and [csvInput] are
    not derived again.  The delimiter reaches neither the YAML nor the CSV
    output; the indent does not reach the CSV output, and the YAML output is
    serialised with the new indent while [yamlInput] keeps the text made
    with the old one. *)
Theorem options_leave_buffers (E : Imports) (a : App) :
  pending a = false ->
  (forall dl,
      let s' := refs (dispatch E (SelectDelimiter dl) a) in
      s' = set_delimiter dl (refs a) /\
      yamlOutput E s' = yamlOutput E (refs a) /\
      csvOutput E s' = csvOutput E (refs a)) /\
  (forall width,
      let s' := refs (dispatch E (EnterIndent width) a) in
      s' = set_indent width (refs a) /\
      csvOutput E s' = csvOutput E (refs a) /\
      yamlInput s' = yamlInput (refs a) /\
      (forall Y, yaml (refs a) = Some Y ->
                 has_error (parsedJson E (refs a)) = false ->
                 yamlOutput E s'
                 = or_empty (Yaml.stringify Y (data (parsedJson E (refs a))) width))).
Proof.
  intros Hrest. split.
  - intros dl s'. unfold s'.
    rewrite dispatch_unwatched by (try exact Hrest; reflexivity).
    repeat split.
  - intros width s'. unfold s'.
    rewrite dispatch_unwatched by (try exact Hrest; reflexivity).
    repeat apply conj; try reflexivity.
    intros Y HY Hok. unfold yamlOutput. cbn [refs].
    change (yaml (exec (handle E (EnterIndent width)) (refs a))) with (yaml (refs a)).
    change (parsedJson E (exec (handle E (EnterIndent width)) (refs a)))
      with (parsedJson E (refs a)).
    now rewrite HY, Hok.
Qed.

(** An indent of four entered in the sample session, whose canonical text is
    [[1]]: a flat sequence has nothing to indent. *)
Lemma options_leave_buffers_sample :
  let a := dispatch Sample.imports (Input id_json "[1]") Sample.started in
  let s' := refs (dispatch Sample.imports (EnterIndent 4) a) in
  s' = set_indent 4 (refs a) /\
  csvOutput Sample.imports s' = csvOutput Sample.imports (refs a) /\
  yamlInput s' = "- 1" ++ Sample.nl /\
  yamlOutput Sample.imports s' = "- 1" ++ Sample.nl.
Proof.
  destruct (options_leave_buffers Sample.imports
              (dispatch Sample.imports (Input id_json "[1]") Sample.started))
    as (_ & Hindent); [reflexivity |].
  destruct (Hindent 4) as (Hrefs & Hcsv & Hyaml & Hout).
  repeat apply conj; [exact Hrefs | exact Hcsv | exact Hyaml |].
  rewrite (Hout Sample.yaml_lib eq_refl eq_refl). reflexivity.
Defined.

(** X13: giving the focus to a pane changes [activeEditor] and nothing that
    is shown: the four panes (texts, token counts and savings) and the share
    token are what they were, no buffer is written and no watcher runs.  The
    TOON pane cannot take the part of the active editor. *)
Theorem focus_changes_no_text (E : Imports) (a : App) (i : FormatId) :
  pending a = false ->
  let s' := refs (dispatch E (Focus i) a) in
  formats E s' = formats E (refs a) /\
  encodeState E s' = encodeState E (refs a) /\
  jsonInput s' = jsonInput (refs a) /\
  yamlInput s' = yamlInput (refs a) /\
  csvInput s' = csvInput (refs a) /\
  (forall ed, i = editor_id ed -> s' = set_activeEditor ed (refs a)) /\
  (i = id_toon -> s' = refs a).
Proof.
  intros Hrest s'. unfold s'.
  rewrite dispatch_unwatched by (try exact Hrest; destruct i; reflexivity).
  cbn [refs]. repeat apply conj; try (destruct i; reflexivity).
  - intros ed ->. destruct ed; reflexivity.
  - intros ->. reflexivity.
Qed.

(** The focus moving to the YAML pane of the sample session. *)
Lemma focus_changes_no_text_sample :
  let a := Sample.started in
  let s' := refs (dispatch Sample.imports (Focus id_yaml) a) in
  formats Sample.imports s' = formats Sample.imports (refs a) /\
  encodeState Sample.imports s' = encodeState Sample.imports (refs a) /\
  s' = set_activeEditor ed_yaml (refs a).
Proof.
  destruct (focus_changes_no_text Sample.imports Sample.started id_yaml)
    as (Hformats & Htoken & _ & _ & _ & Hactive & _); [reflexivity |].
  repeat apply conj; [exact Hformats | exact Htoken | exact (Hactive ed_yaml eq_refl)].
Defined.

(** X14: [loadPreset] makes the JSON editor the active one before it writes
    the preset's text, so the synchronisation that the write triggers is not
    stopped by the editor guard, whichever editor was active.  It is the
    write that triggers it: a preset whose text is the canonical text already
    makes no watcher run, and the buffers stay as they were. *)
Theorem loadPreset_resynchronises (E : Imports) (a : App) (preset : JsValue) :
  pending a = false ->
  let text := JSON_stringify E preset (Some 2) in
  let s0 := set_jsonInput text (set_activeEditor ed_json (refs a)) in
  let s' := refs (dispatch E (SelectPreset preset) a) in
  activeEditor s' = ed_json /\
  jsonInput s' = text /\
  (text <> jsonInput (refs a) -> s' = exec (syncOutputs E) s0) /\
  (text = jsonInput (refs a) ->
   s' = set_activeEditor ed_json (refs a) /\
   yamlInput s' = yamlInput (refs a) /\ csvInput s' = csvInput (refs a)).
Proof.
  intros Hrest text s0 s'.
  apply pending_false in Hrest as (Hj & Hy & Hc).
  assert (Hrefs : s' = if (text =? jsonInput (refs a))%string then s0
                       else exec (syncOutputs E) s0).
  { unfold s'. rewrite dispatch_refs.
    change (exec (handle E (SelectPreset preset)) (refs a)) with s0.
    rewrite run_jobs_json_active by reflexivity.
    cbn [refs watchers]. change (jsonInput s0) with text. now rewrite Hj. }
  destruct (syncOutputs_writes E s0) as (Hjson & Hactive & _).
  rewrite Hrefs. destruct (String.eqb_spec text (jsonInput (refs a))) as [Hsame | Hnew].
  - repeat apply conj; try reflexivity; [contradiction |].
    intros _. unfold s0. rewrite Hsame. destruct (refs a). repeat split.
  - repeat apply conj; [exact Hactive | exact Hjson | reflexivity | contradiction].
Qed.

(** The preset [[1]] chosen while the YAML editor of the sample session is
    active, over the canonical text of [rows]: the YAML buffer is derived
    again; the CSV library refuses a list of numbers, so the synchronisation
    stops there. *)
Lemma loadPreset_resynchronises_sample :
  let a := dispatch Sample.imports (Focus id_yaml) Sample.started in
  let s' := refs (dispatch Sample.imports (SelectPreset Sample.list1) a) in
  activeEditor s' = ed_json /\
  jsonInput s' = Sample.list1_pretty /\
  yamlInput s' = "- 1" ++ Sample.nl /\
  csvInput s' = csvInput (refs a).
Proof.
  destruct (loadPreset_resynchronises Sample.imports
              (dispatch Sample.imports (Focus id_yaml) Sample.started) Sample.list1)
    as (Hactive & Hjson & Hsync & _); [reflexivity |].
  repeat apply conj; [exact Hactive | exact Hjson | |];
    rewrite Hsync by (vm_compute; intros H; discriminate H); reflexivity.
Defined.

(** ** The savings shown on the panes *)

Section Badges.

Context (E : Imports).

Lemma calculateSavings_some (base compare : option Z) (sv : Savings) :
  calculateSavings E base compare = Some sv <->
  exists b c, base = Some b /\ compare = Some c /\ b <> 0 /\ c <> 0 /\
              sv = {| diff := b - c; percent := percent_of E (b - c) b;
                      sign := if 0 <? b - c then Minus else Plus;
                      isSavings := 0 <? b - c |}.
Proof.
  unfold calculateSavings, no_tokens. split.
  - destruct base as [b |], compare as [c |]; simpl; try discriminate.
    + destruct (Z.eqb_spec b 0); simpl; [discriminate |].
      destruct (Z.eqb_spec c 0); simpl; [discriminate |].
      intros [= <-]. exists b, c. auto.
    + destruct (b =? 0); discriminate.
  - intros (b & c & -> & -> & Hb & Hc & ->).
    apply Z.eqb_neq in Hb, Hc. now rewrite Hb, Hc.
Qed.

Lemma tokens_of_empty_output (s : State) (i : FormatId) (f : Format.t) :
  i <> id_json -> pane E s i = Some f ->
  Format.output f = EmptyString -> Format.tokens f = None.
Proof.
  intros Hderived Hpane.
  destruct i; [contradiction | | |]; injection Hpane as <-; simpl;
    intros Hempty; unfold yamlTokens, csvTokens, toonTokens; now rewrite Hempty.
Qed.

End Badges.

(** X15: which panes show a saving.  The JSON pane never does.  A derived
    pane (TOON, YAML, CSV) shows one exactly when the canonical text and the
    pane's text both have a token count that is not zero; the difference is
    then the JSON count minus the pane's, marked as a saving (sign [-])
    exactly when the pane's count is the smaller one.  So no saving is shown
    while the tokenizer is missing, or on a pane whose text is empty. *)
Theorem savings_shown (E : Imports) (s : State) :
  (forall f, pane E s id_json = Some f -> Format.savings f = None) /\
  (forall i f,
      i <> id_json -> pane E s i = Some f ->
      (forall sv,
          Format.savings f = Some sv <->
          exists b c, jsonTokens s = Some b /\ Format.tokens f = Some c /\
                      b <> 0 /\ c <> 0 /\
                      sv = {| diff := b - c; percent := percent_of E (b - c) b;
                              sign := if c <? b then Minus else Plus;
                              isSavings := c <? b |}) /\
      (tokenizer s = None -> Format.savings f = None) /\
      (Format.output f = EmptyString -> Format.savings f = None)).
Proof.
  split.
  - intros f [= <-]. reflexivity.
  - intros i f Hderived Hpane.
    assert (Hsavings : Format.savings f
                       = calculateSavings E (jsonTokens s) (Format.tokens f))
      by (destruct i; [contradiction | | |]; injection Hpane as <-; reflexivity).
    assert (Hlt : forall b c, (0 <? b - c) = (c <? b)).
    { intros b c. destruct (Z.ltb_spec 0 (b - c)), (Z.ltb_spec c b); lia || reflexivity. }
    repeat apply conj.
    + intros sv. rewrite Hsavings, calculateSavings_some.
      split; intros (b & c & Hb & Hc & Hb0 & Hc0 & ->); exists b, c;
        rewrite (Hlt b c); auto.
    + intros Hnone. rewrite Hsavings.
      unfold jsonTokens, calculateTokens. now rewrite Hnone.
    + intros Hempty. rewrite Hsavings.
      rewrite (tokens_of_empty_output E s i f Hderived Hpane Hempty).
      unfold calculateSavings, no_tokens. now rewrite orb_true_r.
Qed.

(** The TOON pane of the sample session on the text of [rows]: 34 tokens of
    JSON against 15 of TOON. *)
Lemma savings_shown_sample :
  exists f, pane Sample.imports (refs Sample.started) id_toon = Some f /\
            Format.savings f
            = Some {| diff := 19; percent := "55.9"; sign := Minus; isSavings := true |}.
Proof.
  eexists. split; [reflexivity |].
  apply (proj1 (proj2 (savings_shown Sample.imports (refs Sample.started)) id_toon _
                  ltac:(discriminate) eq_refl)).
  exists 34, 15. repeat split; try (vm_compute; reflexivity); discriminate.
Defined.

(** ** What a link identifies *)

(** X16: two sessions that share a token share the canonical text, the
    delimiter and the indent (as a number), whenever the libraries invert one
    another on both: a link cannot stand for two different sessions. *)
Theorem same_token_same_session (E : Imports) (s1 s2 : State) :
  (forall s, s = s1 \/ s = s2 ->
     let state := PlaygroundState.to_value (playgroundState s) in
     let text := JSON_stringify E state None in
     let bytes := stringToUint8Array E text in
     let compressed := zlibSync E bytes in
     text <> EmptyString /\
     JSON_parse E text = Normal state /\
     uint8ArrayToString E bytes = Normal text /\
     unzlibSync E compressed = Normal bytes /\
     base64ToUint8Array E (uint8ArrayToBase64 E compressed true) = Normal compressed) ->
  encodeState E s1 = encodeState E s2 ->
  jsonInput s1 = jsonInput s2 /\
  delimiter s1 = delimiter s2 /\
  Number_of_Z (indent s1) = Number_of_Z (indent s2).
Proof.
  intros Hlibs Htoken.
  destruct (Hlibs s1 (or_introl eq_refl)) as (Ht1 & Hp1 & Hu1 & Hz1 & Hb1).
  destruct (Hlibs s2 (or_intror eq_refl)) as (Ht2 & Hp2 & Hu2 & Hz2 & Hb2).
  pose proof (decodeState_of_token E s1 Ht1 Hp1 Hu1 Hz1 Hb1) as H1.
  pose proof (decodeState_of_token E s2 Ht2 Hp2 Hu2 Hz2 Hb2) as H2.
  rewrite Htoken, H2 in H1. injection H1 as Hjson Hdelim Hindent.
  repeat apply conj; [congruence | | congruence].
  destruct (delimiter s1), (delimiter s2); reflexivity || discriminate Hdelim.
Qed.

(** Two sample sessions that differ in the active editor only. *)
Lemma same_token_same_session_sample :
  jsonInput (Sample.loaded "[1]" ed_json) = jsonInput (Sample.loaded "[1]" ed_yaml) /\
  delimiter (Sample.loaded "[1]" ed_json) = delimiter (Sample.loaded "[1]" ed_yaml) /\
  Number_of_Z (indent (Sample.loaded "[1]" ed_json))
  = Number_of_Z (indent (Sample.loaded "[1]" ed_yaml)).
Proof.
  apply (same_token_same_session Sample.imports).
  - intros s [-> | ->]; repeat split; try reflexivity; discriminate.
  - reflexivity.
Defined.

(** ** What derivation never writes *)

Section Untouched.

Context (E : Imports).

Lemma same_settings_trans (s1 s2 s3 : State) :
  same_settings s1 s2 -> same_settings s2 s3 -> same_settings s1 s3.
Proof. unfold same_settings. intuition congruence. Qed.

Lemma on_yamlInput_settings (s : State) : same_settings s (exec (on_yamlInput E) s).
Proof. unfold same_settings. run_method. split_cases; repeat split; congruence. Qed.

Lemma on_csvInput_settings (s : State) : same_settings s (exec (on_csvInput E) s).
Proof. unfold same_settings. run_method. split_cases; repeat split; congruence. Qed.

Lemma run_jobs_settings (a : App) : same_settings (refs a) (refs (run_jobs E a)).
Proof.
  unfold run_jobs.
  assert (H1 : same_settings (refs a) (refs (job_jsonInput E a))).
  { unfold job_jsonInput. destruct (_ =? _)%string; [repeat split |].
    cbn [refs]. destruct (syncOutputs_writes E (refs a)) as (_ & ? & ? & ? & ? & ? & ?).
    repeat split; assumption. }
  set (a1 := job_jsonInput E a) in *.
  assert (H2 : same_settings (refs a1) (refs (job_yamlInput E a1))).
  { unfold job_yamlInput. destruct (_ =? _)%string; [repeat split |].
    apply on_yamlInput_settings. }
  set (a2 := job_yamlInput E a1) in *.
  assert (H3 : same_settings (refs a2) (refs (job_csvInput E a2))).
  { unfold job_csvInput. destruct (_ =? _)%string; [repeat split |].
    apply on_csvInput_settings. }
  eauto using same_settings_trans.
Qed.

Lemma dispatch_settings (ev : Event) (a : App) :
  same_settings (exec (handle E ev) (refs a)) (refs (dispatch E ev a)).
Proof. rewrite dispatch_refs. apply (run_jobs_settings {| refs := _; watchers := _ |}). Qed.

End Untouched.

(** X17: the options and the libraries are out of the reach of derivation.
    After any sequence of events, from any state, the delimiter is the last
    one selected and the indent the last one entered (the initial ones if
    there was none), and a library that was loaded is still loaded: no
    watcher callback, however the edits cascade, assigns them. *)
Theorem options_follow_their_events (E : Imports) (evs : list Event) (a : App) :
  let s' := refs (run E evs a) in
  delimiter s'
  = fold_left (fun dl ev => match ev with SelectDelimiter dl' => dl' | _ => dl end)
      evs (delimiter (refs a)) /\
  indent s'
  = fold_left (fun width ev => match ev with EnterIndent width' => width' | _ => width end)
      evs (indent (refs a)) /\
  (tokenizer (refs a) <> None -> tokenizer s' <> None) /\
  (yaml (refs a) <> None -> yaml s' <> None) /\
  (papa (refs a) <> None -> papa s' <> None).
Proof.
  unfold run. revert a. induction evs as [| ev evs IH]; intros a; cbn [fold_left].
  - repeat split; auto.
  - destruct (IH (dispatch E ev a)) as (Hdelim & Hindent & Htok & Hyaml & Hpapa).
    destruct (dispatch_settings E ev a) as (Hd & Hi & _ & Ht & Hy & Hp).
    assert (Hhandler :
              delimiter (exec (handle E ev) (refs a))
              = match ev with SelectDelimiter dl' => dl' | _ => delimiter (refs a) end /\
              indent (exec (handle E ev) (refs a))
              = match ev with EnterIndent width' => width' | _ => indent (refs a) end /\
              (tokenizer (refs a) <> None -> tokenizer (exec (handle E ev) (refs a)) <> None) /\
              (yaml (refs a) <> None -> yaml (exec (handle E ev) (refs a)) <> None) /\
              (papa (refs a) <> None -> papa (exec (handle E ev) (refs a)) <> None)).
    { destruct ev as [i text | i | dl | width | preset | T | Y | P];
        try (destruct i); try (repeat split; (auto || discriminate)).
      change (exec (handle E (PapaLoaded P)) (refs a))
        with (exec (syncOutputs E) (set_papa (Some P) (refs a))).
      destruct (syncOutputs_writes E (set_papa (Some P) (refs a)))
        as (_ & _ & -> & -> & -> & -> & ->).
      repeat split; (auto || discriminate). }
    destruct Hhandler as (Hd0 & Hi0 & Ht0 & Hy0 & Hp0).
    rewrite Hd, Hd0 in Hdelim. rewrite Hi, Hi0 in Hindent.
    rewrite Ht in Htok. rewrite Hy in Hyaml. rewrite Hp in Hpapa.
    repeat split; auto.
Qed.
